(** * repology: the package transformer (repology/transformer.py)

    A shallow embedding of [PackageTransformer]: rule compilation and
    packing ([__init__]), [MatchRule], [ApplyRule], [Process] and
    [GetUnmatchedRules], with the properties of the rule engine proved
    about it.

    Conventions of the embedding.
    - A Python [str] is a [string], a sequence of characters; [split],
      [replace] and [in], which only compare characters, are defined in
      [PyStr].  [lower] depends on the case tables of Unicode and is an
      interface ([StrLower]), as the [re] module is.
    - The [re] module is an interface ([ReEngine]): pattern compilation and
      matching at the start of a string, giving the list of groups.  The
      theorems hold for every engine and every [lower]; [RefRe] is a small
      backtracking engine for a fragment of the syntax, with a [lower] for
      ASCII names, used to run the examples.
    - A rule dictionary is shared between [self.rules] and the packs, and its
      ['matches'] entry is mutated by [Process].  A rule object is therefore a
      pair of its position in [self.rules] (its identity) and its immutable
      contents; the counters live in a store indexed by that position.
    - The two pack preconditions are closures.  [lambda name: name in names]
      reads the variable [names] of the constructor's frame when it is
      called, so the frame's cell is part of the transformer.
    - Exceptions are results: [Raise e].
    - Python is CPython 3.7 or later: a dictionary keeps the order of its
      entries, and a bad escape in a replacement template is an error. *)

From Stdlib Require Import ZArith Ascii String.
From stdpp Require Import base decidable option list gmap strings.

Local Open Scope string_scope.
Local Open Scope Z_scope.

(** ** Results of fallible code *)

Inductive exn : Type :=
| IndexError   (* match.group(n): no such group *)
| ReError.     (* re.error *)

Inductive result (A : Type) : Type :=
| Ok (a : A)
| Raise (e : exn).
Arguments Ok {A} a.
Arguments Raise {A} e.

Definition rbind {A B} (m : result A) (k : A → result B) : result B :=
  match m with
  | Ok a => k a
  | Raise e => Raise e
  end.

Notation "'let*' x ':=' m 'in' k" := (rbind m (fun x => k))
  (at level 10, x pattern, m at level 100, k at level 200).

Fixpoint rmapM {A B} (f : A → result B) (l : list A) : result (list B) :=
  match l with
  | [] => Ok []
  | a :: l' => let* b := f a in let* bs := rmapM f l' in Ok (b :: bs)
  end.

(** ** The string operations of Python used by the source *)

Module PyStr.

(** [s.startswith(p)]. *)
Fixpoint startswith (p s : string) : bool :=
  match p, s with
  | EmptyString, _ => true
  | String a p', String b s' => if Ascii.eqb a b then startswith p' s' else false
  | String _ _, EmptyString => false
  end.

(** [s.split(sep)] for a one-character separator: the fields between
    the occurrences of [sep]; never empty. *)
Fixpoint split_go (sep : ascii) (cur : string) (s : string) : list string :=
  match s with
  | EmptyString => [cur]
  | String c s' =>
      if Ascii.eqb c sep then cur :: split_go sep EmptyString s'
      else split_go sep (cur +:+ String c EmptyString) s'
  end.

Definition split (sep : ascii) (s : string) : list string :=
  split_go sep EmptyString s.

(** [s.replace(old, new)] with a non-empty [old]: the non-overlapping
    occurrences of [old], leftmost first.  [skip] counts the characters
    of an occurrence that are still to be dropped. *)
Fixpoint replace_go (old new : string) (skip : nat) (s : string) : string :=
  match s with
  | EmptyString => EmptyString
  | String c s' =>
      match skip with
      | S k => replace_go old new k s'
      | O =>
          if startswith old s
          then new +:+ replace_go old new (Nat.pred (String.length old)) s'
          else String c (replace_go old new O s')
      end
  end.

(** [s.replace("", new)]: [new] before every character and at the end. *)
Fixpoint intersperse (new : string) (s : string) : string :=
  match s with
  | EmptyString => new
  | String c s' => new +:+ String c (intersperse new s')
  end.

Definition replace (old new s : string) : string :=
  match old with
  | EmptyString => intersperse new s
  | String _ _ => replace_go old new O s
  end.

(** [x in l] for a list of strings. *)
Definition contains (l : list string) (x : string) : bool :=
  bool_decide (x ∈ l).

End PyStr.

(** ** The [re] module

    What the source uses of a compiled pattern: [re.compile(text, re.ASCII)],
    which raises [re.error] on a malformed pattern, and [pattern.match(s)],
    which matches at the start of [s] and gives a match object or [None].
    A match object is the list of its groups, group 0 (the whole match)
    first; a group that took no part in the match is [None]. *)

Definition match_object : Type := list (option string).

Class ReEngine : Type := {
  pattern : Type;
  re_compile : string → result pattern;
  re_match : pattern → string → option match_object;
}.

(** [s.lower()]: the string with every cased character in lower case. *)
Class StrLower : Type := {
  str_lower : string → string;
}.

(** [match.group(n)]: [IndexError] when the pattern has no group [n]. *)
Definition group (m : match_object) (n : nat) : result (option string) :=
  match m !! n with
  | Some g => Ok g
  | None => Raise IndexError
  end.

Module Template.

Definition is_digit (c : ascii) : bool :=
  let n := nat_of_ascii c in ((48 <=? n) && (n <=? 57))%nat.

Definition is_octdigit (c : ascii) : bool :=
  let n := nat_of_ascii c in ((48 <=? n) && (n <=? 55))%nat.

Definition is_ascii_letter (c : ascii) : bool :=
  let n := nat_of_ascii c in
  (((65 <=? n) && (n <=? 90)) || ((97 <=? n) && (n <=? 122)))%nat.

Definition digit_val (c : ascii) : nat := (nat_of_ascii c - 48)%nat.

(** [int(ds)] and [int(ds, 8)] for a string of digits. *)
Fixpoint int_go (base acc : nat) (ds : string) : nat :=
  match ds with
  | EmptyString => acc
  | String c ds' => int_go base (base * acc + digit_val c)%nat ds'
  end.

Definition int_of (ds : string) : nat := int_go 10 0 ds.
Definition oct_of (ds : string) : nat := int_go 8 0 ds.

(** The longest prefix of digits. *)
Fixpoint digits_prefix (s : string) : string :=
  match s with
  | EmptyString => EmptyString
  | String c s' => if is_digit c then String c (digits_prefix s') else EmptyString
  end.

Fixpoint all_digits (s : string) : bool :=
  match s with
  | EmptyString => true
  | String c s' => is_digit c && all_digits s'
  end.

Fixpoint has_backslash (s : string) : bool :=
  match s with
  | EmptyString => false
  | String c s' => Ascii.eqb c "\" || has_backslash s'
  end.

(** [dollarN.sub(f, template)] for [dollarN = re.compile("\$([0-9]+)")]:
    every [$] followed by digits, with all the digits that follow, is
    replaced by what [f] returns for the digits; [None] from [f] inserts
    nothing; an exception of [f] ends the substitution. *)
Fixpoint dollarN_sub (f : string → result (option string)) (skip : nat)
    (template : string) : result string :=
  match template with
  | EmptyString => Ok EmptyString
  | String c t' =>
      match skip with
      | S k => dollarN_sub f k t'
      | O =>
          let ds := digits_prefix t' in
          if Ascii.eqb c "$" && negb (String.eqb ds EmptyString) then
            let* g := f ds in
            let* rest := dollarN_sub f (String.length ds) t' in
            Ok (default EmptyString g +:+ rest)
          else
            let* rest := dollarN_sub f O t' in
            Ok (String c rest)
      end
  end.

(** The name of [\g<name>]: the text up to the first [>], and what
    follows it. *)
Fixpoint getuntil_gt (s : string) : option (string * string) :=
  match s with
  | EmptyString => None
  | String c s' =>
      if Ascii.eqb c ">" then Some (EmptyString, s')
      else match getuntil_gt s' with
           | Some (n, r) => Some (String c n, r)
           | None => None
           end
  end.

Definition is_ident_start (c : ascii) : bool :=
  is_ascii_letter c || Ascii.eqb c "_".

Fixpoint all_ident_rest (s : string) : bool :=
  match s with
  | EmptyString => true
  | String c s' => (is_ident_start c || is_digit c) && all_ident_rest s'
  end.

Definition isidentifier (s : string) : bool :=
  match s with
  | EmptyString => false
  | String c s' => is_ident_start c && all_ident_rest s'
  end.

(** The escapes of a replacement string that stand for one character. *)
Definition escape_char (c : ascii) : option ascii :=
  if Ascii.eqb c "a" then Some (ascii_of_nat 7)
  else if Ascii.eqb c "b" then Some (ascii_of_nat 8)
  else if Ascii.eqb c "f" then Some (ascii_of_nat 12)
  else if Ascii.eqb c "n" then Some (ascii_of_nat 10)
  else if Ascii.eqb c "r" then Some (ascii_of_nat 13)
  else if Ascii.eqb c "t" then Some (ascii_of_nat 9)
  else if Ascii.eqb c "v" then Some (ascii_of_nat 11)
  else if Ascii.eqb c "\" then Some "\"%char
  else None.

(** A replacement *string* given to [pattern.sub] is a template: its
    backslash escapes are processed before any substitution (the [re]
    documentation: "any backslash escapes in it are processed";
    [re.error] for a bad escape, CPython 3.7 and later).  [expand m0 repl]
    is the text that replaces a match whose whole text is [m0], for a
    pattern without groups, as [dollar0] is: a reference to group 0 gives
    [m0], a reference to any other group is an error.  A group number is a
    string of ASCII digits, as from CPython 3.12. *)
Fixpoint expand_go (fuel : nat) (m0 : string) (s : string) : result string :=
  match fuel with
  | O => Ok EmptyString
  | S fuel' =>
      match s with
      | EmptyString => Ok EmptyString
      | String c s1 =>
          if negb (Ascii.eqb c "\") then
            let* rest := expand_go fuel' m0 s1 in Ok (String c rest)
          else
            match s1 with
            | EmptyString => Raise ReError            (* bad escape (end of pattern) *)
            | String d s2 =>
                if Ascii.eqb d "g" then
                  match s2 with
                  | String "<" s3 =>
                      match getuntil_gt s3 with
                      | None => Raise ReError         (* missing >, unterminated name *)
                      | Some (name, s4) =>
                          if String.eqb name EmptyString then Raise ReError
                          else if isidentifier name then Raise IndexError
                          else if all_digits name && (int_of name =? 0)%nat then
                            let* rest := expand_go fuel' m0 s4 in Ok (m0 +:+ rest)
                          else Raise ReError          (* invalid group reference *)
                      end
                  | _ => Raise ReError                (* missing < *)
                  end
                else if Ascii.eqb d "0" then
                  match s2 with
                  | String o1 s3 =>
                      if is_octdigit o1 then
                        match s3 with
                        | String o2 s4 =>
                            if is_octdigit o2 then
                              let* rest := expand_go fuel' m0 s4 in
                              Ok (String (ascii_of_nat
                                   (oct_of (String o1 (String o2 EmptyString)) mod 256)) rest)
                            else
                              let* rest := expand_go fuel' m0 s3 in
                              Ok (String (ascii_of_nat (digit_val o1)) rest)
                        | EmptyString => Ok (String (ascii_of_nat (digit_val o1)) EmptyString)
                        end
                      else
                        let* rest := expand_go fuel' m0 s2 in
                        Ok (String (ascii_of_nat 0) rest)
                  | EmptyString => Ok (String (ascii_of_nat 0) EmptyString)
                  end
                else if is_digit d then
                  match s2 with
                  | String d2 (String d3 s4) =>
                      if is_octdigit d && is_octdigit d2 && is_octdigit d3 then
                        let v := oct_of (String d (String d2 (String d3 EmptyString))) in
                        if (255 <? v)%nat then Raise ReError
                        else
                          let* rest := expand_go fuel' m0 s4 in
                          Ok (String (ascii_of_nat v) rest)
                      else Raise ReError              (* invalid group reference *)
                  | _ => Raise ReError                (* invalid group reference *)
                  end
                else
                  match escape_char d with
                  | Some e =>
                      let* rest := expand_go fuel' m0 s2 in Ok (String e rest)
                  | None =>
                      if is_ascii_letter d then Raise ReError   (* bad escape *)
                      else
                        let* rest := expand_go fuel' m0 s2 in
                        Ok (String c (String d rest))
                  end
            end
      end
  end.

Definition expand (m0 repl : string) : result string :=
  expand_go (S (String.length repl)) m0 repl.

(** [dollar0.sub(repl, template)] for [dollar0 = re.compile("\$0")] and a
    string [repl]: the template [repl] is expanded first, then every
    occurrence of the two characters [$0] in [template], leftmost first, is
    replaced by the expansion. *)
Definition dollar0_sub (repl template : string) : result string :=
  let* e := expand "$0" repl in
  Ok (PyStr.replace "$0" e template).

End Template.

(** ** The data model *)

(** A [name], [ver], [category] or [family] entry of a rule as loaded from
    YAML: one string, or a list of strings. *)
Inductive yaml_strs : Type :=
| YScalar (s : string)
| YList (l : list string).

(** A rule of the document as [yaml.safe_load] gives it.  The entries
    [ignore], [unignore], [ignorever], [unignorever], [last] and
    [tolowername] only count by their presence. *)
Record RawRule : Type := {
  raw_name : option yaml_strs;
  raw_ver : option yaml_strs;
  raw_category : option yaml_strs;
  raw_family : option yaml_strs;
  raw_namepat : option string;
  raw_verpat : option string;
  raw_verlonger : option Z;
  raw_ignore : bool;
  raw_unignore : bool;
  raw_ignorever : bool;
  raw_unignorever : bool;
  raw_last : bool;
  raw_tolowername : bool;
  raw_setname : option string;
  raw_replaceinname : option (list (string * string));
}.

(** [pprint.PrettyPrinter(width=10000).pformat]. *)
Class PrettyPrinter : Type := {
  pformat : RawRule → string;
}.

Module MatchResult.
Definition ignorepackage : Z := 1.
Definition ignoreversion : Z := 2.
Definition lastrule : Z := 4.
Definition unignorepackage : Z := 8.
Definition unignoreversion : Z := 16.
End MatchResult.

(** The package object: the four attributes [Process] reads and the three
    it writes; [effname] is unset until [Process] sets it. *)
Record Package : Type := {
  pkg_name : string;
  pkg_version : string;
  pkg_category : string;
  pkg_family : string;
  pkg_effname : option string;
  pkg_ignore : bool;
  pkg_ignoreversion : bool;
}.

Definition set_ignore (b : bool) (p : Package) : Package :=
  {| pkg_name := pkg_name p; pkg_version := pkg_version p;
     pkg_category := pkg_category p; pkg_family := pkg_family p;
     pkg_effname := pkg_effname p; pkg_ignore := b;
     pkg_ignoreversion := pkg_ignoreversion p |}.

Definition set_ignoreversion (b : bool) (p : Package) : Package :=
  {| pkg_name := pkg_name p; pkg_version := pkg_version p;
     pkg_category := pkg_category p; pkg_family := pkg_family p;
     pkg_effname := pkg_effname p; pkg_ignore := pkg_ignore p;
     pkg_ignoreversion := b |}.

Definition set_effname (n : string) (p : Package) : Package :=
  {| pkg_name := pkg_name p; pkg_version := pkg_version p;
     pkg_category := pkg_category p; pkg_family := pkg_family p;
     pkg_effname := Some n; pkg_ignore := pkg_ignore p;
     pkg_ignoreversion := pkg_ignoreversion p |}.

(** The two closures used as pack preconditions. *)
Inductive precondition : Type :=
| name_in_names    (* lambda name: name in names *)
| always_true.     (* lambda name: True *)

Section Engine.

Context {RE : ReEngine} {PP : PrettyPrinter} {SL : StrLower}.

(** The rule dictionary after the first loop of [__init__], without its
    ['matches'] entry. *)
Record Rule : Type := {
  r_name : option (list string);
  r_ver : option (list string);
  r_category : option (list string);
  r_family : option (list string);
  r_namepat : option pattern;
  r_verpat : option pattern;
  r_verlonger : option Z;
  r_ignore : bool;
  r_unignore : bool;
  r_ignorever : bool;
  r_unignorever : bool;
  r_last : bool;
  r_tolowername : bool;
  r_setname : option string;
  r_replaceinname : option (list (string * string));
  r_pretty : string;
}.

(** A reference to a rule object: its position in [self.rules] and its
    contents. *)
Definition rule_ref : Type := nat * Rule.

Definition rulepack : Type := precondition * list rule_ref.

Record PackageTransformer : Type := {
  rules : list Rule;
  matches : list nat;          (* rule['matches'], by position in rules *)
  rulepacks : list rulepack;
  names : gset string;         (* the cell of __init__'s variable names *)
}.

(** *** [__init__]: compilation *)

(** "convert some fields to lists". *)
Definition to_list (v : yaml_strs) : list string :=
  match v with
  | YScalar s => [s]
  | YList l => l
  end.

(** "compile regexps": [re.compile(rule[field] + "$", re.ASCII)]. *)
Definition compile_field (field : option string) : result (option pattern) :=
  match field with
  | Some text => let* p := re_compile (text +:+ "$") in Ok (Some p)
  | None => Ok None
  end.

(** The body of the first loop; the counter it sets to 0 is allocated by
    [__init__] below. *)
Definition compile_rule (rule : RawRule) : result Rule :=
  let pretty := pformat rule in
  let* namepat := compile_field (raw_namepat rule) in
  let* verpat := compile_field (raw_verpat rule) in
  Ok {| r_name := to_list <$> raw_name rule;
        r_ver := to_list <$> raw_ver rule;
        r_category := to_list <$> raw_category rule;
        r_family := to_list <$> raw_family rule;
        r_namepat := namepat;
        r_verpat := verpat;
        r_verlonger := raw_verlonger rule;
        r_ignore := raw_ignore rule;
        r_unignore := raw_unignore rule;
        r_ignorever := raw_ignorever rule;
        r_unignorever := raw_unignorever rule;
        r_last := raw_last rule;
        r_tolowername := raw_tolowername rule;
        r_setname := raw_setname rule;
        r_replaceinname := raw_replaceinname rule;
        r_pretty := pretty |}.

(** *** [__init__]: packing *)

(** The variables of the second loop. *)
Record packer : Type := {
  pk_names : gset string;
  pk_pack : list rule_ref;
  pk_rulepacks : list rulepack;
}.

(** [for name in rule['name']: names.add(name); pack.append(rule)]. *)
Fixpoint add_names (rule : rule_ref) (l : list string) (k : packer) : packer :=
  match l with
  | [] => k
  | name :: l' =>
      add_names rule l'
        {| pk_names := pk_names k ∪ {[ name ]};
           pk_pack := pk_pack k ++ [rule];
           pk_rulepacks := pk_rulepacks k |}
  end.

(** [if names: self.rulepacks.append((lambda name: name in names, pack))]. *)
Definition flush (k : packer) : list rulepack :=
  if bool_decide (pk_names k ≠ ∅)
  then pk_rulepacks k ++ [(name_in_names, pk_pack k)]
  else pk_rulepacks k.

Definition pack_step (k : packer) (rule : rule_ref) : packer :=
  match r_name (snd rule) with
  | Some l => add_names rule l k
  | None =>
      {| pk_names := ∅;
         pk_pack := [];
         pk_rulepacks := flush k ++ [(always_true, [rule])] |}
  end.

Definition pack_rules (rs : list Rule) : packer :=
  foldl pack_step
    {| pk_names := ∅; pk_pack := []; pk_rulepacks := [] |}
    (imap (λ i r, (i, r)) rs).

(** [document] is what [yaml.safe_load] returned for [rulestext] or for the
    file at [rulespath]. *)
Definition __init__ (document : list RawRule) : result PackageTransformer :=
  let* rs := rmapM compile_rule document in
  let k := pack_rules rs in
  Ok {| rules := rs;
        matches := replicate (length rs) 0%nat;
        rulepacks := flush k;
        names := pk_names k |}.

(** Calling a precondition closure of transformer [T]. *)
Definition call (T_names : gset string) (p : precondition) (name : string) : bool :=
  match p with
  | name_in_names => bool_decide (name ∈ T_names)
  | always_true => true
  end.

(** *** [MatchRule] *)

Definition not_in (field : option (list string)) (x : string) : bool :=
  match field with
  | Some l => negb (PyStr.contains l x)
  | None => false
  end.

Definition not_matching (field : option pattern) (x : string) : bool :=
  match field with
  | Some p => negb (bool_decide (is_Some (re_match p x)))
  | None => false
  end.

Definition MatchRule (rule : Rule) (pkgname pkgversion pkgcategory pkgfamily : string)
    : bool :=
  if not_in (r_family rule) pkgfamily then false
  else if not_in (r_category rule) pkgcategory then false
  else if not_in (r_name rule) pkgname then false
  else if not_matching (r_namepat rule) pkgname then false
  else if not_in (r_ver rule) pkgversion then false
  else if not_matching (r_verpat rule) pkgversion then false
  else if match r_verlonger rule with
          | Some n => negb (n <? Z.of_nat (length (PyStr.split "." pkgversion)))
          | None => false
          end then false
  else true.

(** *** [ApplyRule] *)

Definition ApplyRule (rule : Rule) (pkgname pkgversion : string)
    : result (Z * string) :=
  let flags := 0 in
  let flags := if r_ignore rule then Z.lor flags MatchResult.ignorepackage else flags in
  let flags := if r_unignore rule then Z.lor flags MatchResult.unignorepackage else flags in
  let flags := if r_ignorever rule then Z.lor flags MatchResult.ignoreversion else flags in
  let flags := if r_unignorever rule then Z.lor flags MatchResult.unignoreversion else flags in
  let flags := if r_last rule then Z.lor flags MatchResult.lastrule else flags in
  let* pkgname :=
    match r_setname rule with
    | Some template =>
        let match_ :=
          match r_namepat rule with
          | Some p => re_match p pkgname
          | None => None
          end in
        match match_ with
        | Some m =>
            Template.dollarN_sub (λ x1, group m (Template.int_of x1)) O template
        | None => Template.dollar0_sub pkgname template
        end
    | None => Ok pkgname
    end in
  let pkgname :=
    match r_replaceinname rule with
    | Some items =>
        foldl (λ pkgname '(old, replacement),
                 PyStr.replace old replacement pkgname) pkgname items
    | None => pkgname
    end in
  let pkgname := if r_tolowername rule then str_lower pkgname else pkgname in
  Ok (flags, pkgname).

(** *** [Process] *)

(** The variables [Process] works on: its local [transformed_name], the
    package object and the counters of the rules. *)
Record pstate : Type := {
  transformed_name : string;
  package : Package;
  counters : list nat;
}.

(** How a loop is left: by running to its end, by the [return] of a
    [last] rule, or by an exception. *)
Inductive signal : Type :=
| Next
| Return
| Raised (e : exn).

Definition flag_set (flags mask : Z) : bool := negb (Z.land flags mask =? 0).

(** The part of the inner loop's body after [ApplyRule]: the four
    assignments to the package, in the order of the source. *)
Definition apply_flags (flags : Z) (p : Package) : Package :=
  let p := if flag_set flags MatchResult.ignorepackage then set_ignore true p else p in
  let p := if flag_set flags MatchResult.ignoreversion then set_ignoreversion true p else p in
  let p := if flag_set flags MatchResult.unignorepackage then set_ignore false p else p in
  let p := if flag_set flags MatchResult.unignoreversion then set_ignoreversion false p else p in
  p.

(** [for rule in rulepack: ...]. *)
Fixpoint run_rules (rulepack : list rule_ref) (st : pstate) : pstate * signal :=
  match rulepack with
  | [] => (st, Next)
  | (i, rule) :: rest =>
      let pkg := package st in
      if negb (MatchRule rule (transformed_name st) (pkg_version pkg)
                 (pkg_category pkg) (pkg_family pkg))
      then run_rules rest st
      else
        let counters' := alter S i (counters st) in        (* rule['matches'] += 1 *)
        match ApplyRule rule (transformed_name st) (pkg_version pkg) with
        | Raise e =>
            ({| transformed_name := transformed_name st; package := pkg;
                counters := counters' |}, Raised e)
        | Ok (flags, name') =>
            let pkg' := apply_flags flags pkg in
            if flag_set flags MatchResult.lastrule then
              ({| transformed_name := name'; package := set_effname name' pkg';
                  counters := counters' |}, Return)
            else
              run_rules rest
                {| transformed_name := name'; package := pkg'; counters := counters' |}
        end
  end.

(** [for precondition, rulepack in self.rulepacks: ...]; [cell] is the
    value of [names] the closures see. *)
Fixpoint run_packs (cell : gset string) (packs : list rulepack) (st : pstate)
    : pstate * signal :=
  match packs with
  | [] => (st, Next)
  | (precondition, rulepack) :: rest =>
      if negb (call cell precondition (transformed_name st))
      then run_packs cell rest st
      else
        match run_rules rulepack st with
        | (st', Next) => run_packs cell rest st'
        | (st', sig) => (st', sig)
        end
  end.

Definition with_counters (T : PackageTransformer) (c : list nat) : PackageTransformer :=
  {| rules := rules T; matches := c; rulepacks := rulepacks T; names := names T |}.

Definition start (T : PackageTransformer) (pkg : Package) : pstate :=
  {| transformed_name := pkg_name pkg; package := pkg; counters := matches T |}.

(** The last assignment of [Process], reached when no [last] rule
    returned before. *)
Definition finish (r : pstate * signal) : pstate * signal :=
  match r with
  | (st, Next) =>
      ({| transformed_name := transformed_name st;
          package := set_effname (transformed_name st) (package st);
          counters := counters st |}, Next)
  | other => other
  end.

(** [Process(package)]: the transformer and the package after the call,
    and whether the call returned or raised. *)
Definition Process (T : PackageTransformer) (pkg : Package)
    : PackageTransformer * Package * result unit :=
  let '(st, sig) := finish (run_packs (names T) (rulepacks T) (start T pkg)) in
  (with_counters T (counters st), package st,
   match sig with
   | Raised e => Raise e
   | _ => Ok tt
   end).

(** *** [GetUnmatchedRules] *)

(** [for rule in self.rules: if rule['matches'] == 0: result.append(rule['pretty'])]. *)
Fixpoint unmatched_loop (rs : list (Rule * nat)) (result : list string) : list string :=
  match rs with
  | [] => result
  | (rule, m) :: rest =>
      if (m =? 0)%nat then unmatched_loop rest (result ++ [r_pretty rule])
      else unmatched_loop rest result
  end.

Definition GetUnmatchedRules (T : PackageTransformer) : list string :=
  unmatched_loop (zip (rules T) (matches T)) [].

(** What the caller reads from the package after [Process]. *)
Definition output (p : Package) : option string * bool * bool :=
  (pkg_effname p, pkg_ignore p, pkg_ignoreversion p).

End Engine.

(** ** A reference engine

    A backtracking matcher for a fragment of the pattern syntax of [re]:
    literal characters, [.], groups [( )], alternation [|], the greedy
    quantifiers [*], [+] and [?] (on an operand that cannot match the empty
    string, for [*] and [+]), [$], and a backslash before a character that
    is not a letter or a digit.  A pattern outside the fragment is refused
    with [ReError], so the engine never gives an answer that differs from
    Python's for a pattern it accepts. *)

Module RefRe.

Inductive regex : Type :=
| RChar (c : ascii)
| RAny
| REol
| REps
| RSeq (a b : regex)
| RAlt (a b : regex)
| RStar (a : regex)
| RGroup (n : nat) (a : regex).

Fixpoint nullable (r : regex) : bool :=
  match r with
  | RChar _ | RAny => false
  | REol | REps | RStar _ => true
  | RSeq a b => nullable a && nullable b
  | RAlt a b => nullable a || nullable b
  | RGroup _ a => nullable a
  end.

Definition captures : Type := list (option string).

Definition newline : ascii := ascii_of_nat 10.

(** The first [n] characters of [s]. *)
Fixpoint take_str (n : nat) (s : string) : string :=
  match n, s with
  | S n', String c s' => String c (take_str n' s')
  | _, _ => EmptyString
  end.

Definition consumed (s s' : string) : string :=
  take_str (String.length s - String.length s') s.

(** [run r s caps k]: match [r] at the start of [s], then continue with
    [k] on what is left; the alternatives are tried in the order of a
    backtracking matcher, greedy quantifiers first. *)
Fixpoint run (r : regex) (s : string) (caps : captures)
    (k : string → captures → option (string * captures)) : option (string * captures) :=
  match r with
  | RChar c =>
      match s with
      | String d s' => if Ascii.eqb c d then k s' caps else None
      | EmptyString => None
      end
  | RAny =>
      match s with
      | String d s' => if Ascii.eqb d newline then None else k s' caps
      | EmptyString => None
      end
  | REol =>
      if String.eqb s EmptyString || String.eqb s (String newline EmptyString)
      then k s caps else None
  | REps => k s caps
  | RSeq a b => run a s caps (λ s' caps', run b s' caps' k)
  | RAlt a b =>
      match run a s caps k with
      | Some res => Some res
      | None => run b s caps k
      end
  | RStar a =>
      (fix star (n : nat) (s : string) (caps : captures) : option (string * captures) :=
         match n with
         | O => k s caps
         | S n' =>
             match run a s caps
                     (λ s' caps', if (String.length s' <? String.length s)%nat
                                  then star n' s' caps' else None) with
             | Some res => Some res
             | None => k s caps
             end
         end) (String.length s) s caps
  | RGroup g a =>
      run a s caps (λ s' caps', k s' (<[Nat.pred g := Some (consumed s s')]> caps'))
  end.

Definition is_quantifier (c : ascii) : bool :=
  Ascii.eqb c "*" || Ascii.eqb c "+" || Ascii.eqb c "?" || Ascii.eqb c "{".

Definition starts_with_quantifier (s : string) : bool :=
  match s with
  | String c _ => is_quantifier c
  | EmptyString => false
  end.

(** An operand followed by at most one quantifier. *)
Definition quantified (a : regex) (s : string) (g : nat) : option (regex * string * nat) :=
  match s with
  | String q s' =>
      if Ascii.eqb q "{" then None
      else if Ascii.eqb q "*" || Ascii.eqb q "+" || Ascii.eqb q "?" then
        if starts_with_quantifier s' then None
        else if Ascii.eqb q "?" then Some (RAlt a REps, s', g)
        else if nullable a then None
        else if Ascii.eqb q "*" then Some (RStar a, s', g)
        else Some (RSeq a (RStar a), s', g)
      else Some (a, s, g)
  | EmptyString => Some (a, s, g)
  end.

Definition is_alnum (c : ascii) : bool :=
  Template.is_digit c || Template.is_ascii_letter c.

Definition is_special (c : ascii) : bool :=
  is_quantifier c || Ascii.eqb c "}" || Ascii.eqb c "[" || Ascii.eqb c "]"
  || Ascii.eqb c "^" || Ascii.eqb c "|" || Ascii.eqb c ")".

(** The parser; [g] counts the groups opened so far. *)
Fixpoint p_alt (fuel : nat) (s : string) (g : nat) : option (regex * string * nat) :=
  match fuel with
  | O => None
  | S fuel' =>
      match p_seq fuel' s g with
      | Some (a, String "|" s', g') =>
          match p_alt fuel' s' g' with
          | Some (b, s'', g'') => Some (RAlt a b, s'', g'')
          | None => None
          end
      | other => other
      end
  end
with p_seq (fuel : nat) (s : string) (g : nat) : option (regex * string * nat) :=
  match fuel with
  | O => None
  | S fuel' =>
      match s with
      | EmptyString => Some (REps, s, g)
      | String c _ =>
          if Ascii.eqb c "|" || Ascii.eqb c ")" then Some (REps, s, g)
          else
            match p_atom fuel' s g with
            | Some (a, s', g') =>
                match p_seq fuel' s' g' with
                | Some (b, s'', g'') => Some (RSeq a b, s'', g'')
                | None => None
                end
            | None => None
            end
      end
  end
with p_atom (fuel : nat) (s : string) (g : nat) : option (regex * string * nat) :=
  match fuel with
  | O => None
  | S fuel' =>
      match s with
      | EmptyString => None
      | String "(" s' =>
          if starts_with_quantifier s' then None
          else
            match p_alt fuel' s' (S g) with
            | Some (a, String ")" s'', g') => quantified (RGroup (S g) a) s'' g'
            | _ => None
            end
      | String "." s' => quantified RAny s' g
      | String "$" s' => if starts_with_quantifier s' then None else Some (REol, s', g)
      | String "\" (String c s') =>
          if is_alnum c then None else quantified (RChar c) s' g
      | String c s' =>
          if is_special c || Ascii.eqb c "\" then None else quantified (RChar c) s' g
      end
  end.

Definition compile (text : string) : result (regex * nat) :=
  match p_alt (4 * String.length text + 4) text 0 with
  | Some (r, EmptyString, g) => Ok (r, g)
  | _ => Raise ReError
  end.

(** [pattern.match(s)]: group 0 is the text consumed. *)
Definition match_ (p : regex * nat) (s : string) : option match_object :=
  match run (fst p) s (replicate (snd p) None) (λ s' caps, Some (s', caps)) with
  | Some (s', caps) => Some (Some (consumed s s') :: caps)
  | None => None
  end.

#[export] Instance engine : ReEngine :=
  {| pattern := regex * nat; re_compile := compile; re_match := match_ |}.

(** A stand-in for [pprint]: the conditions and the new name of the rule
    in braces.  The development never looks into a rendering. *)
Definition render_strs (key : string) (v : option yaml_strs) : string :=
  match v with
  | Some (YScalar s) => key +:+ "=" +:+ s +:+ ";"
  | Some (YList l) => key +:+ "=[" +:+ String.concat "," l +:+ "];"
  | None => EmptyString
  end.

Definition render_str (key : string) (v : option string) : string :=
  match v with
  | Some s => key +:+ "=" +:+ s +:+ ";"
  | None => EmptyString
  end.

Definition render (rule : RawRule) : string :=
  "{" +:+ render_strs "name" (raw_name rule)
      +:+ render_strs "ver" (raw_ver rule)
      +:+ render_strs "category" (raw_category rule)
      +:+ render_strs "family" (raw_family rule)
      +:+ render_str "namepat" (raw_namepat rule)
      +:+ render_str "verpat" (raw_verpat rule)
      +:+ render_str "setname" (raw_setname rule) +:+ "}".

#[export] Instance printer : PrettyPrinter := {| pformat := render |}.

(** A stand-in for [str.lower]: the ASCII letters are lowered, which is
    what [str.lower] does to a string of ASCII characters; the examples
    have no others. *)
Definition ascii_lower_char (c : ascii) : ascii :=
  let n := nat_of_ascii c in
  if ((65 <=? n) && (n <=? 90))%nat then ascii_of_nat (n + 32) else c.

Fixpoint ascii_lower (s : string) : string :=
  match s with
  | EmptyString => EmptyString
  | String c s' => String (ascii_lower_char c) (ascii_lower s')
  end.

#[export] Instance lowering : StrLower := {| str_lower := ascii_lower |}.

End RefRe.

(** ** The steps of the specification

    Definitions that follow the words of the specification, to compare the
    source with. *)

Module Spec.
Section Definitions.

Context {RE : ReEngine} {PP : PrettyPrinter} {SL : StrLower}.

Local Open Scope list_scope.

(** "Evaluate every rule in original order, skipping none": every
    compiled rule once, in the order of the document, no pack and no
    precondition. *)
Definition Process_unpacked (T : PackageTransformer) (pkg : Package)
    : PackageTransformer * Package * result unit :=
  let '(st, sig) := finish (run_rules (imap (λ i r, (i, r)) (rules T)) (start T pkg)) in
  (with_counters T (counters st), package st,
   match sig with
   | Raised e => Raise e
   | _ => Ok tt
   end).

(** "Flags are set verbatim from the rule's boolean-style actions." *)
Definition flags_of (rule : Rule) : Z :=
  (if r_ignore rule then MatchResult.ignorepackage else 0)
  + (if r_unignore rule then MatchResult.unignorepackage else 0)
  + (if r_ignorever rule then MatchResult.ignoreversion else 0)
  + (if r_unignorever rule then MatchResult.unignoreversion else 0)
  + (if r_last rule then MatchResult.lastrule else 0).

(** Step 2, the template of [setname]. *)
Definition setname_step (rule : Rule) (name : string) : result string :=
  match r_setname rule with
  | None => Ok name
  | Some template =>
      match r_namepat rule ≫= (λ p, re_match p name) with
      | Some m => Template.dollarN_sub (λ ds, group m (Template.int_of ds)) O template
      | None => Template.dollar0_sub name template
      end
  end.

(** Step 3: "apply each (pattern, replacement) pair as a literal substring
    replacement over the name, strictly in the map's declared order, each
    replacement applied to the output of the previous one". *)
Fixpoint replace_in_order (items : list (string * string)) (name : string) : string :=
  match items with
  | [] => name
  | (old, new) :: rest => replace_in_order rest (PyStr.replace old new name)
  end.

Definition replace_step (rule : Rule) (name : string) : string :=
  match r_replaceinname rule with
  | Some items => replace_in_order items name
  | None => name
  end.

(** Step 4. *)
Definition lower_step (rule : Rule) (name : string) : string :=
  if r_tolowername rule then str_lower name else name.

(** "Every literal [$0] token in the template replaced by the current
    name string". *)
Definition literal_dollar0 (name template : string) : string :=
  PyStr.replace "$0" name template.

(** The rule with position [j] in [self.rules] is reached by the loop
    over [rulepack] started in state [st], and [MatchRule] holds for it
    there. *)
Inductive fires_in_rules : list rule_ref → pstate → nat → Prop :=
| fires_here j rule rest st :
    MatchRule rule (transformed_name st) (pkg_version (package st))
      (pkg_category (package st)) (pkg_family (package st)) = true →
    fires_in_rules ((j, rule) :: rest) st j
| fires_later r rest st st' j :
    run_rules [r] st = (st', Next) →
    fires_in_rules rest st' j →
    fires_in_rules (r :: rest) st j.

Inductive fires_in_packs (cell : gset string) : list rulepack → pstate → nat → Prop :=
| fires_pack_here precondition rulepack rest st j :
    call cell precondition (transformed_name st) = true →
    fires_in_rules rulepack st j →
    fires_in_packs cell ((precondition, rulepack) :: rest) st j
| fires_pack_later pk rest st st' j :
    run_packs cell [pk] st = (st', Next) →
    fires_in_packs cell rest st' j →
    fires_in_packs cell (pk :: rest) st j.

(** Rule [j] matched during [Process(pkg)] on transformer [T]. *)
Definition fires (T : PackageTransformer) (pkg : Package) (j : nat) : Prop :=
  fires_in_packs (names T) (rulepacks T) (start T pkg) j.

(** A caller processing the packages [pkgs] one after the other. *)
Definition process_all (T : PackageTransformer) (pkgs : list Package) : PackageTransformer :=
  foldl (λ T pkg, (Process T pkg).1.1) T pkgs.

(** The state [Process] starts from for a package whose name is the
    current transformed name of [st]. *)
Definition rename (n : string) (p : Package) : Package :=
  {| pkg_name := n; pkg_version := pkg_version p;
     pkg_category := pkg_category p; pkg_family := pkg_family p;
     pkg_effname := pkg_effname p; pkg_ignore := pkg_ignore p;
     pkg_ignoreversion := pkg_ignoreversion p |}.

Definition rename_state (n : string) (st : pstate) : pstate :=
  {| transformed_name := transformed_name st;
     package := rename n (package st);
     counters := counters st |}.

Definition restore_name (n : string) (r : pstate * signal) : pstate * signal :=
  (rename_state n r.1, r.2).

(** The transformer [T] with the counters [c] and with the packs [packs]
    in place of its own: what is left of the work of [Process] when the
    loops have come to [packs] with the counters [c]. *)
Definition rest_of (T : PackageTransformer) (c : list nat) (packs : list rulepack)
    : PackageTransformer :=
  {| rules := rules T; matches := c; rulepacks := packs; names := names T |}.

(** The rule objects of all packs, one pack after the other. *)
Definition packed_rules (T : PackageTransformer) : list rule_ref :=
  concat (snd <$> rulepacks T).

Definition all_rules (T : PackageTransformer) : list rule_ref :=
  imap (λ i r, (i, r)) (rules T).

(** Invariants and relations used by the proofs. *)

(** Every rule reference the packer holds satisfies [P]. *)
Definition packer_all (P : rule_ref → Prop) (k : packer) : Prop :=
  Forall P (pk_pack k) ∧ Forall (λ pk : rulepack, Forall P pk.2) (pk_rulepacks k).

(** The reference is to the rule at its position in [rs]. *)
Definition points_into (rs : list Rule) (ref : rule_ref) : Prop :=
  rs !! ref.1 = Some ref.2.

Definition no_match (pkgname : string) (pkg : Package) (ref : rule_ref) : Prop :=
  MatchRule ref.2 pkgname (pkg_version pkg) (pkg_category pkg) (pkg_family pkg) = false.

(** The counters [c'] are the counters [c] after some increments. *)
Definition grows (c c' : list nat) : Prop :=
  length c' = length c
  ∧ ∀ j m, c !! j = Some m → ∃ m', c' !! j = Some m' ∧ (m ≤ m')%nat.

Definition positive_at (c : list nat) (j : nat) : Prop :=
  ∃ m, c !! j = Some (S m).

(** The packer has stored the references [done], in this order, and its
    open pack is empty when [names] is. *)
Definition packer_holds (k : packer) (done : list rule_ref) : Prop :=
  concat (snd <$> pk_rulepacks k) ++ pk_pack k = done
  ∧ (pk_names k = ∅ → pk_pack k = []).

(** The rule has no [name], or exactly one. *)
Definition single_name (ref : rule_ref) : Prop :=
  ∀ l, r_name ref.2 = Some l → length l = 1%nat.

End Definitions.
End Spec.

(** ** Rule documents and packages for the examples *)

Module Doc.

(** The rule [{}]. *)
Definition empty : RawRule :=
  {| raw_name := None; raw_ver := None; raw_category := None; raw_family := None;
     raw_namepat := None; raw_verpat := None; raw_verlonger := None;
     raw_ignore := false; raw_unignore := false; raw_ignorever := false;
     raw_unignorever := false; raw_last := false; raw_tolowername := false;
     raw_setname := None; raw_replaceinname := None |}.

Definition with_name (v : yaml_strs) (r : RawRule) : RawRule :=
  {| raw_name := Some v; raw_ver := raw_ver r; raw_category := raw_category r;
     raw_family := raw_family r; raw_namepat := raw_namepat r;
     raw_verpat := raw_verpat r; raw_verlonger := raw_verlonger r;
     raw_ignore := raw_ignore r; raw_unignore := raw_unignore r;
     raw_ignorever := raw_ignorever r; raw_unignorever := raw_unignorever r;
     raw_last := raw_last r; raw_tolowername := raw_tolowername r;
     raw_setname := raw_setname r; raw_replaceinname := raw_replaceinname r |}.

Definition with_family (v : yaml_strs) (r : RawRule) : RawRule :=
  {| raw_name := raw_name r; raw_ver := raw_ver r; raw_category := raw_category r;
     raw_family := Some v; raw_namepat := raw_namepat r;
     raw_verpat := raw_verpat r; raw_verlonger := raw_verlonger r;
     raw_ignore := raw_ignore r; raw_unignore := raw_unignore r;
     raw_ignorever := raw_ignorever r; raw_unignorever := raw_unignorever r;
     raw_last := raw_last r; raw_tolowername := raw_tolowername r;
     raw_setname := raw_setname r; raw_replaceinname := raw_replaceinname r |}.

Definition with_namepat (v : string) (r : RawRule) : RawRule :=
  {| raw_name := raw_name r; raw_ver := raw_ver r; raw_category := raw_category r;
     raw_family := raw_family r; raw_namepat := Some v;
     raw_verpat := raw_verpat r; raw_verlonger := raw_verlonger r;
     raw_ignore := raw_ignore r; raw_unignore := raw_unignore r;
     raw_ignorever := raw_ignorever r; raw_unignorever := raw_unignorever r;
     raw_last := raw_last r; raw_tolowername := raw_tolowername r;
     raw_setname := raw_setname r; raw_replaceinname := raw_replaceinname r |}.

Definition with_setname (v : string) (r : RawRule) : RawRule :=
  {| raw_name := raw_name r; raw_ver := raw_ver r; raw_category := raw_category r;
     raw_family := raw_family r; raw_namepat := raw_namepat r;
     raw_verpat := raw_verpat r; raw_verlonger := raw_verlonger r;
     raw_ignore := raw_ignore r; raw_unignore := raw_unignore r;
     raw_ignorever := raw_ignorever r; raw_unignorever := raw_unignorever r;
     raw_last := raw_last r; raw_tolowername := raw_tolowername r;
     raw_setname := Some v; raw_replaceinname := raw_replaceinname r |}.

Definition with_replaceinname (v : list (string * string)) (r : RawRule) : RawRule :=
  {| raw_name := raw_name r; raw_ver := raw_ver r; raw_category := raw_category r;
     raw_family := raw_family r; raw_namepat := raw_namepat r;
     raw_verpat := raw_verpat r; raw_verlonger := raw_verlonger r;
     raw_ignore := raw_ignore r; raw_unignore := raw_unignore r;
     raw_ignorever := raw_ignorever r; raw_unignorever := raw_unignorever r;
     raw_last := raw_last r; raw_tolowername := raw_tolowername r;
     raw_setname := raw_setname r; raw_replaceinname := Some v |}.

Definition with_ignore (r : RawRule) : RawRule :=
  {| raw_name := raw_name r; raw_ver := raw_ver r; raw_category := raw_category r;
     raw_family := raw_family r; raw_namepat := raw_namepat r;
     raw_verpat := raw_verpat r; raw_verlonger := raw_verlonger r;
     raw_ignore := true; raw_unignore := raw_unignore r;
     raw_ignorever := raw_ignorever r; raw_unignorever := raw_unignorever r;
     raw_last := raw_last r; raw_tolowername := raw_tolowername r;
     raw_setname := raw_setname r; raw_replaceinname := raw_replaceinname r |}.

Definition with_unignore (r : RawRule) : RawRule :=
  {| raw_name := raw_name r; raw_ver := raw_ver r; raw_category := raw_category r;
     raw_family := raw_family r; raw_namepat := raw_namepat r;
     raw_verpat := raw_verpat r; raw_verlonger := raw_verlonger r;
     raw_ignore := raw_ignore r; raw_unignore := true;
     raw_ignorever := raw_ignorever r; raw_unignorever := raw_unignorever r;
     raw_last := raw_last r; raw_tolowername := raw_tolowername r;
     raw_setname := raw_setname r; raw_replaceinname := raw_replaceinname r |}.

Definition with_ignorever (r : RawRule) : RawRule :=
  {| raw_name := raw_name r; raw_ver := raw_ver r; raw_category := raw_category r;
     raw_family := raw_family r; raw_namepat := raw_namepat r;
     raw_verpat := raw_verpat r; raw_verlonger := raw_verlonger r;
     raw_ignore := raw_ignore r; raw_unignore := raw_unignore r;
     raw_ignorever := true; raw_unignorever := raw_unignorever r;
     raw_last := raw_last r; raw_tolowername := raw_tolowername r;
     raw_setname := raw_setname r; raw_replaceinname := raw_replaceinname r |}.

Definition with_unignorever (r : RawRule) : RawRule :=
  {| raw_name := raw_name r; raw_ver := raw_ver r; raw_category := raw_category r;
     raw_family := raw_family r; raw_namepat := raw_namepat r;
     raw_verpat := raw_verpat r; raw_verlonger := raw_verlonger r;
     raw_ignore := raw_ignore r; raw_unignore := raw_unignore r;
     raw_ignorever := raw_ignorever r; raw_unignorever := true;
     raw_last := raw_last r; raw_tolowername := raw_tolowername r;
     raw_setname := raw_setname r; raw_replaceinname := raw_replaceinname r |}.

Definition with_last (r : RawRule) : RawRule :=
  {| raw_name := raw_name r; raw_ver := raw_ver r; raw_category := raw_category r;
     raw_family := raw_family r; raw_namepat := raw_namepat r;
     raw_verpat := raw_verpat r; raw_verlonger := raw_verlonger r;
     raw_ignore := raw_ignore r; raw_unignore := raw_unignore r;
     raw_ignorever := raw_ignorever r; raw_unignorever := raw_unignorever r;
     raw_last := true; raw_tolowername := raw_tolowername r;
     raw_setname := raw_setname r; raw_replaceinname := raw_replaceinname r |}.

Definition with_tolowername (r : RawRule) : RawRule :=
  {| raw_name := raw_name r; raw_ver := raw_ver r; raw_category := raw_category r;
     raw_family := raw_family r; raw_namepat := raw_namepat r;
     raw_verpat := raw_verpat r; raw_verlonger := raw_verlonger r;
     raw_ignore := raw_ignore r; raw_unignore := raw_unignore r;
     raw_ignorever := raw_ignorever r; raw_unignorever := raw_unignorever r;
     raw_last := raw_last r; raw_tolowername := true;
     raw_setname := raw_setname r; raw_replaceinname := raw_replaceinname r |}.

(** A package as the caller hands it to [Process]: [effname] unset, the
    two flags false. *)
Definition pkg (name version category family : string) : Package :=
  {| pkg_name := name; pkg_version := version; pkg_category := category;
     pkg_family := family; pkg_effname := None; pkg_ignore := false;
     pkg_ignoreversion := false |}.

(** [Process] on a freshly built transformer. *)
Definition process_with `{ReEngine} `{PrettyPrinter} `{StrLower} (doc : list RawRule) (p : Package)
    : result (PackageTransformer * Package * result unit) :=
  let* T := __init__ doc in Ok (Process T p).

Definition process_unpacked_with `{ReEngine} `{PrettyPrinter} `{StrLower} (doc : list RawRule)
    (p : Package) : result (PackageTransformer * Package * result unit) :=
  let* T := __init__ doc in Ok (Spec.Process_unpacked T p).

(** What is observed of a call: the outputs of the package, the counters
    of the rules, and whether the call raised. *)
Definition observe `{ReEngine} `{PrettyPrinter}
    (r : result (PackageTransformer * Package * result unit))
    : result ((option string * bool * bool) * list nat * result unit) :=
  let* x := r in Ok (output x.1.2, matches x.1.1, x.2).

(** The transformer for a document that compiles. *)
Definition build `{ReEngine} `{PrettyPrinter} (doc : list RawRule) : PackageTransformer :=
  match __init__ doc with
  | Ok T => T
  | Raise _ => {| rules := []; matches := []; rulepacks := []; names := ∅ |}
  end.

(** The compiled form of a rule without patterns. *)
Definition plain `{ReEngine} `{PrettyPrinter} (rule : RawRule) : Rule :=
  {| r_name := to_list <$> raw_name rule;
     r_ver := to_list <$> raw_ver rule;
     r_category := to_list <$> raw_category rule;
     r_family := to_list <$> raw_family rule;
     r_namepat := None;
     r_verpat := None;
     r_verlonger := raw_verlonger rule;
     r_ignore := raw_ignore rule;
     r_unignore := raw_unignore rule;
     r_ignorever := raw_ignorever rule;
     r_unignorever := raw_unignorever rule;
     r_last := raw_last rule;
     r_tolowername := raw_tolowername rule;
     r_setname := raw_setname rule;
     r_replaceinname := raw_replaceinname rule;
     r_pretty := pformat rule |}.

(** [[{name: a, setname: b}, {ignore: true}]] *)
Definition rename_then_ignore : list RawRule :=
  [with_setname "b" (with_name (YScalar "a") empty); with_ignore empty].

(** [[{name: [a, b], replaceinname: {b: c, a: b}}]] *)
Definition two_names : list RawRule :=
  [with_replaceinname [("b", "c"); ("a", "b")] (with_name (YList ["a"; "b"]) empty)].

(** [[{setname: "$0"}]] *)
Definition keep_name : list RawRule := [with_setname "$0" empty].

(** The pattern [lib] followed by a group of any characters, renamed to
    the group: [namepat] and [setname: "$1"]. *)
Definition strip_lib : RawRule := with_setname "$1" (with_namepat "lib(.*)" empty).

(** The same pattern with [setname: "$2"], a group it does not have. *)
Definition strip_lib_2 : RawRule := with_setname "$2" (with_namepat "lib(.*)" empty).

(** [[{setname: b, last: true}, {ignore: true}]] *)
Definition last_then_ignore : list RawRule :=
  [with_last (with_setname "b" empty); with_ignore empty].

(** [[{setname: b}, {name: b, ignore: true}]] *)
Definition rename_into_pack : list RawRule :=
  [with_setname "b" empty; with_ignore (with_name (YScalar "b") empty)].

(** [[{family: freebsd, ignore: true}, {name: Foo, setname: foo}]] *)
Definition end_to_end : list RawRule :=
  [with_ignore (with_family (YScalar "freebsd") empty);
   with_setname "foo" (with_name (YScalar "Foo") empty)].

(** [[{name: x, ignore: true}, {family: freebsd, last: true}]] *)
Definition two_conditions : list RawRule :=
  [with_ignore (with_name (YScalar "x") empty);
   with_last (with_family (YScalar "freebsd") empty)].

(** [{ignore: true, unignore: true, ignorever: true, unignorever: true}] *)
Definition both_ways : RawRule :=
  with_unignorever (with_ignorever (with_unignore (with_ignore empty))).

(** [[{setname: "$0", last: true}, {ignore: true}]] *)
Definition last_keep_name : list RawRule :=
  [with_last (with_setname "$0" empty); with_ignore empty].

(** [[{ignore: true, ignorever: true},
      {ignore: true, unignore: true, ignorever: true, unignorever: true,
       setname: "$0"}]] *)
Definition ignore_then_both_ways : list RawRule :=
  [with_ignorever (with_ignore empty); with_setname "$0" both_ways].

Definition pkg_a : Package := pkg "a" "1.0" "x" "f".

(** A package whose name is a backslash followed by [1]. *)
Definition pkg_backslash_1 : Package := pkg "\1" "1.0" "x" "f".

(** A package that earlier rules have marked both ways. *)
Definition ignored (ign : bool) : Package :=
  {| pkg_name := "a"; pkg_version := "1.0"; pkg_category := "x";
     pkg_family := "f"; pkg_effname := None; pkg_ignore := ign;
     pkg_ignoreversion := ign |}.

End Doc.

(** ** Notions for the further properties *)

Module More.
Section Definitions.

Context {RE : ReEngine} {PP : PrettyPrinter} {SL : StrLower}.

Local Open Scope list_scope.

(** [s.count(c)] for a character. *)
Fixpoint count_char (c : ascii) (s : string) : nat :=
  match s with
  | EmptyString => O
  | String d s' => if Ascii.eqb d c then S (count_char c s') else count_char c s'
  end.

(** The template has no [$]. *)
Fixpoint no_dollar (s : string) : bool :=
  match s with
  | EmptyString => true
  | String c s' => negb (Ascii.eqb c "$") && no_dollar s'
  end.

(** How often the second loop of [__init__] appends a rule to a pack: once
    for each of its names, once when it has no [name]. *)
Definition copies (ref : rule_ref) : nat :=
  match r_name ref.2 with
  | Some l => length l
  | None => 1%nat
  end.

Definition nameless (ref : rule_ref) : Prop := r_name ref.2 = None.

Definition named (ref : rule_ref) : Prop := is_Some (r_name ref.2).

(** The rules of the packs guarded by [lambda name: True], in order. *)
Fixpoint always_rules (packs : list rulepack) : list rule_ref :=
  match packs with
  | [] => []
  | (always_true, rs) :: rest => rs ++ always_rules rest
  | (name_in_names, _) :: rest => always_rules rest
  end.

(** How often the rule at position [j] occurs in a list of references. *)
Definition occurrences (j : nat) (rs : list rule_ref) : nat :=
  length (filter (λ ref : rule_ref, ref.1 = j) rs).

(** What a pack looks like. *)
Definition pack_shape (pk : rulepack) : Prop :=
  match pk.1 with
  | always_true => ∃ ref, pk.2 = [ref] ∧ nameless ref
  | name_in_names => pk.2 ≠ [] ∧ Forall named pk.2
  end.

(** The patterns of a rule of the document compile. *)
Definition compiles (raw : RawRule) : Prop :=
  (∀ text, raw_namepat raw = Some text → ∃ p, re_compile (text +:+ "$") = Ok p)
  ∧ (∀ text, raw_verpat raw = Some text → ∃ p, re_compile (text +:+ "$") = Ok p).

(** [Process] run over the rule references [rs] instead of the packs. *)
Definition Process_over (rs : list rule_ref) (T : PackageTransformer) (pkg : Package)
    : PackageTransformer * Package * result unit :=
  let '(st, sig) := finish (run_rules rs (start T pkg)) in
  (with_counters T (counters st), package st,
   match sig with
   | Raised e => Raise e
   | _ => Ok tt
   end).

(** The four attributes of a package that [Process] reads. *)
Definition inputs (p : Package) : string * string * string * string :=
  (pkg_name p, pkg_version p, pkg_category p, pkg_family p).

(** Invariants of the second loop of [__init__], for the proofs. *)

Definition packer_copies (k : packer) (done : list rule_ref) : Prop :=
  concat (snd <$> pk_rulepacks k) ++ pk_pack k = done ≫= (λ ref, replicate (copies ref) ref)
  ∧ (pk_names k = ∅ → pk_pack k = []).

Definition packer_shapes (k : packer) : Prop :=
  Forall pack_shape (pk_rulepacks k)
  ∧ Forall named (pk_pack k)
  ∧ (pk_pack k = [] → pk_names k = ∅).

Definition packer_always (k : packer) (done : list rule_ref) : Prop :=
  always_rules (pk_rulepacks k) = filter nameless done.

(** The names of the rules [rs]. *)
Definition names_of (rs : list Rule) (n : string) : Prop :=
  ∃ rule l, rule ∈ rs ∧ r_name rule = Some l ∧ n ∈ l.

(** The references to the rules [rs] when they stand at the positions from
    [off] on. *)
Definition refs_from (off : nat) (rs : list Rule) : list rule_ref :=
  imap (λ i r, ((off + i)%nat, r)) rs.

(** One pack guarded by [lambda name: True] for each rule. *)
Definition singleton_packs (rs : list rule_ref) : list rulepack :=
  (λ ref, (always_true, [ref])) <$> rs.

(** The rule has exactly one name. *)
Definition one_name (rule : Rule) : Prop := ∃ name, r_name rule = Some [name].

End Definitions.

(** The rule [{verlonger: k}]. *)
Definition verlonger_only (k : Z) : RawRule :=
  {| raw_name := None; raw_ver := None; raw_category := None; raw_family := None;
     raw_namepat := None; raw_verpat := None; raw_verlonger := Some k;
     raw_ignore := false; raw_unignore := false; raw_ignorever := false;
     raw_unignorever := false; raw_last := false; raw_tolowername := false;
     raw_setname := None; raw_replaceinname := None |}.

(** [[{name: [a, b]}, {ignore: true}, {name: c, tolowername: true}, {name: [d, e]}]] *)
Definition mixed : list RawRule :=
  [Doc.with_name (YList ["a"; "b"]) Doc.empty;
   Doc.with_ignore Doc.empty;
   Doc.with_tolowername (Doc.with_name (YScalar "c") Doc.empty);
   Doc.with_name (YList ["d"; "e"]) Doc.empty].

(** [[{ignore: true}, {replaceinname: {a: B}, tolowername: true}]] *)
Definition no_names : list RawRule :=
  [Doc.with_ignore Doc.empty;
   Doc.with_tolowername (Doc.with_replaceinname [("a", "B")] Doc.empty)].

(** [[{name: a, ignorever: true}, {unignore: true}]] *)
Definition flags_only : list RawRule :=
  [Doc.with_ignorever (Doc.with_name (YScalar "a") Doc.empty);
   Doc.with_unignore Doc.empty].

(** [[{ignore: true}, {name: a, setname: b}, {name: b, tolowername: true}]] *)
Definition sorted : list RawRule :=
  [Doc.with_ignore Doc.empty;
   Doc.with_setname "b" (Doc.with_name (YScalar "a") Doc.empty);
   Doc.with_tolowername (Doc.with_name (YScalar "b") Doc.empty)].

(** The compiled form of a rule whose patterns compile. *)
Definition compiled `{ReEngine} `{PrettyPrinter} (rule : RawRule) : Rule :=
  match compile_rule rule with
  | Ok r => r
  | Raise _ => Doc.plain rule
  end.

End More.

(** * Properties *)

Section Properties.

Context {RE : ReEngine} {PP : PrettyPrinter} {SL : StrLower}.

Local Open Scope list_scope.
Import Spec.

Implicit Types (rule : Rule) (st : pstate) (T : PackageTransformer).

(** *** [ApplyRule] *)

Lemma lor_bits (rule : Rule) :
  (let flags := 0 in
   let flags := if r_ignore rule then Z.lor flags MatchResult.ignorepackage else flags in
   let flags := if r_unignore rule then Z.lor flags MatchResult.unignorepackage else flags in
   let flags := if r_ignorever rule then Z.lor flags MatchResult.ignoreversion else flags in
   let flags := if r_unignorever rule then Z.lor flags MatchResult.unignoreversion else flags in
   let flags := if r_last rule then Z.lor flags MatchResult.lastrule else flags in
   flags) = Spec.flags_of rule.
Proof.
  unfold Spec.flags_of.
  destruct (r_ignore rule), (r_unignore rule), (r_ignorever rule),
    (r_unignorever rule), (r_last rule); reflexivity.
Qed.

Lemma foldl_replace (items : list (string * string)) (name : string) :
  foldl (λ pkgname '(old, replacement), PyStr.replace old replacement pkgname) name items
  = Spec.replace_in_order items name.
Proof.
  revert name. induction items as [|[old new] items IH]; intros name; simpl.
  - reflexivity.
  - apply IH.
Qed.

(** [ApplyRule] in terms of the steps. *)
Lemma ApplyRule_steps rule (pkgname pkgversion : string) :
  ApplyRule rule pkgname pkgversion =
  let* n := Spec.setname_step rule pkgname in
  Ok (Spec.flags_of rule, Spec.lower_step rule (Spec.replace_step rule n)).
Proof.
  unfold ApplyRule. cbv zeta. rewrite lor_bits.
  unfold Spec.setname_step, Spec.replace_step, Spec.lower_step.
  destruct (r_setname rule) as [template|]; simpl.
  - destruct (r_namepat rule) as [p|]; simpl.
    + destruct (re_match p pkgname) as [m|]; simpl.
      * destruct (Template.dollarN_sub _ _ _); simpl; [|reflexivity].
        destruct (r_replaceinname rule); [rewrite foldl_replace|]; reflexivity.
      * destruct (Template.dollar0_sub _ _); simpl; [|reflexivity].
        destruct (r_replaceinname rule); [rewrite foldl_replace|]; reflexivity.
    + destruct (Template.dollar0_sub _ _); simpl; [|reflexivity].
      destruct (r_replaceinname rule); [rewrite foldl_replace|]; reflexivity.
  - destruct (r_replaceinname rule); [rewrite foldl_replace|]; reflexivity.
Qed.

Lemma ApplyRule_flags rule (pkgname pkgversion : string) (flags : Z) (name' : string) :
  ApplyRule rule pkgname pkgversion = Ok (flags, name') →
  flags = Spec.flags_of rule.
Proof.
  rewrite ApplyRule_steps.
  destruct (Spec.setname_step rule pkgname); simpl; congruence.
Qed.

Lemma flag_set_flags_of rule :
  flag_set (Spec.flags_of rule) MatchResult.ignorepackage = r_ignore rule
  ∧ flag_set (Spec.flags_of rule) MatchResult.ignoreversion = r_ignorever rule
  ∧ flag_set (Spec.flags_of rule) MatchResult.unignorepackage = r_unignore rule
  ∧ flag_set (Spec.flags_of rule) MatchResult.unignoreversion = r_unignorever rule
  ∧ flag_set (Spec.flags_of rule) MatchResult.lastrule = r_last rule.
Proof.
  unfold Spec.flags_of.
  destruct (r_ignore rule), (r_unignore rule), (r_ignorever rule),
    (r_unignorever rule), (r_last rule); repeat split; reflexivity.
Qed.

(** *** The loops of [Process] *)

Lemma run_rules_app (rs1 rs2 : list rule_ref) st :
  run_rules (rs1 ++ rs2) st =
  match run_rules rs1 st with
  | (st', Next) => run_rules rs2 st'
  | other => other
  end.
Proof.
  revert st. induction rs1 as [|[i rule] rs1 IH]; intros st; simpl.
  - reflexivity.
  - destruct (MatchRule _ _ _ _ _); simpl; [|apply IH].
    destruct (ApplyRule _ _ _) as [[flags name']|e]; [|reflexivity].
    destruct (flag_set flags _); [reflexivity|apply IH].
Qed.

Lemma run_packs_app (cell : gset string) (packs1 packs2 : list rulepack) st :
  run_packs cell (packs1 ++ packs2) st =
  match run_packs cell packs1 st with
  | (st', Next) => run_packs cell packs2 st'
  | other => other
  end.
Proof.
  revert st. induction packs1 as [|[pc rs] packs1 IH]; intros st; simpl.
  - reflexivity.
  - destruct (call cell pc _); simpl; [|apply IH].
    destruct (run_rules rs st) as [st' [| |e]]; [apply IH|reflexivity..].
Qed.

(** The name the package came with is not looked at by the loops. *)
Lemma run_rules_rename (n : string) (rs : list rule_ref) st :
  run_rules rs (Spec.rename_state n st) = Spec.restore_name n (run_rules rs st).
Proof.
  revert st. induction rs as [|[i rule] rs IH]; intros st; simpl.
  - reflexivity.
  - destruct (MatchRule _ _ _ _ _); simpl; [|apply IH].
    destruct (ApplyRule _ _ _) as [[flags name']|e]; [|reflexivity].
    unfold apply_flags.
    destruct (flag_set flags MatchResult.lastrule).
    + destruct (flag_set flags _), (flag_set flags _), (flag_set flags _),
        (flag_set flags _); reflexivity.
    + rewrite <- IH. f_equal.
      destruct (flag_set flags _), (flag_set flags _), (flag_set flags _),
        (flag_set flags _); reflexivity.
Qed.

Lemma run_packs_rename (cell : gset string) (n : string) (packs : list rulepack) st :
  run_packs cell packs (Spec.rename_state n st)
  = Spec.restore_name n (run_packs cell packs st).
Proof.
  revert st. induction packs as [|[pc rs] packs IH]; intros st; simpl.
  - reflexivity.
  - destruct (call cell pc _); simpl; [|apply IH].
    rewrite run_rules_rename.
    destruct (run_rules rs st) as [st' [| |e]]; simpl; [apply IH|reflexivity..].
Qed.

Lemma rename_state_twice (n m : string) st :
  Spec.rename_state n (Spec.rename_state m st) = Spec.rename_state n st.
Proof. reflexivity. Qed.

Lemma rename_state_same st :
  Spec.rename_state (pkg_name (package st)) st = st.
Proof. destruct st as [tn [] c]; reflexivity. Qed.

Lemma restore_name_twice (n m : string) (r : pstate * signal) :
  Spec.restore_name n (Spec.restore_name m r) = Spec.restore_name n r.
Proof. reflexivity. Qed.

Lemma apply_flags_name (flags : Z) (p : Package) :
  pkg_name (apply_flags flags p) = pkg_name p.
Proof.
  unfold apply_flags.
  destruct (flag_set flags _), (flag_set flags _), (flag_set flags _),
    (flag_set flags _); reflexivity.
Qed.

(** The loops leave the four input attributes of the package alone. *)
Lemma run_rules_pkg_name (rs : list rule_ref) st :
  pkg_name (package (run_rules rs st).1) = pkg_name (package st).
Proof.
  revert st. induction rs as [|[i rule] rs IH]; intros st; simpl.
  - reflexivity.
  - destruct (MatchRule _ _ _ _ _); simpl; [|apply IH].
    destruct (ApplyRule _ _ _) as [[flags name']|e]; [|reflexivity].
    destruct (flag_set flags MatchResult.lastrule); simpl.
    + apply apply_flags_name.
    + rewrite IH. simpl. apply apply_flags_name.
Qed.

Lemma run_packs_pkg_name (cell : gset string) (packs : list rulepack) st :
  pkg_name (package (run_packs cell packs st).1) = pkg_name (package st).
Proof.
  revert st. induction packs as [|[pc rs] packs IH]; intros st; simpl.
  - reflexivity.
  - destruct (call cell pc _); simpl; [|apply IH].
    pose proof (run_rules_pkg_name rs st) as Hn.
    destruct (run_rules rs st) as [st' [| |e]]; simpl in *; [|assumption..].
    rewrite IH. assumption.
Qed.

Lemma restore_own_name (r : pstate * signal) (n : string) :
  pkg_name (package r.1) = n → Spec.restore_name n r = r.
Proof.
  destruct r as [st sig]. simpl. intros <-. unfold Spec.restore_name. simpl.
  rewrite rename_state_same. reflexivity.
Qed.

Lemma finish_restore (n : string) (r : pstate * signal) :
  finish (Spec.restore_name n r) = Spec.restore_name n (finish r).
Proof. destruct r as [st [| |e]]; reflexivity. Qed.

Lemma rename_back (n m : string) (p : Package) :
  pkg_name p = n → Spec.rename n (Spec.rename m p) = p.
Proof. intros <-. destruct p; reflexivity. Qed.

(** C3.  Cumulative renaming.  Let the loops of [Process] reach rule [i]
    of some pack in state [st1] without having returned, let the rule
    match there without carrying [last], and let [ApplyRule] return the
    name [name'] for it.  Then what follows, the rest [rs2] of the pack
    and the later packs [packs2], is evaluated exactly as [Process]
    evaluates it for a package that comes with the name [name'] (and the
    flags the rule left): the same rules match, the same counters move,
    the same outcome is reached, and the package differs only by the name
    it came with.  So the name conditions of the later rules and the
    preconditions of the later packs are tested on the name the earlier
    rule produced, and the original name plays no part in them. *)
Theorem later_rules_see_current_name T (pkg : Package)
    (packs1 packs2 : list rulepack) (pc : precondition)
    (rs1 rs2 : list rule_ref) (i : nat) rule st0 st1 (flags : Z) (name' : string) :
  rulepacks T = packs1 ++ (pc, rs1 ++ (i, rule) :: rs2) :: packs2 →
  run_packs (names T) packs1 (start T pkg) = (st0, Next) →
  call (names T) pc (transformed_name st0) = true →
  run_rules rs1 st0 = (st1, Next) →
  MatchRule rule (transformed_name st1) (pkg_version (package st1))
    (pkg_category (package st1)) (pkg_family (package st1)) = true →
  r_last rule = false →
  ApplyRule rule (transformed_name st1) (pkg_version (package st1)) = Ok (flags, name') →
  let T2 := Spec.rest_of T (alter S i (counters st1)) ((always_true, rs2) :: packs2) in
  let pkg2 := Spec.rename name' (apply_flags flags (package st1)) in
  Process T pkg =
    (with_counters T (matches (Process T2 pkg2).1.1),
     Spec.rename (pkg_name pkg) (Process T2 pkg2).1.2,
     (Process T2 pkg2).2).
Proof.
  intros Hpacks H1 Hpc H2 Hm Hlast Happly T2 pkg2.
  assert (Hfl : flag_set flags MatchResult.lastrule = false).
  { rewrite (ApplyRule_flags _ _ _ _ _ Happly).
    destruct (flag_set_flags_of rule) as (_ & _ & _ & _ & ->). exact Hlast. }
  set (st2 := {| transformed_name := name';
                 package := apply_flags flags (package st1);
                 counters := alter S i (counters st1) |}).
  assert (Hrun : run_packs (names T) (rulepacks T) (start T pkg)
                 = run_packs (names T) ((always_true, rs2) :: packs2) st2).
  { rewrite Hpacks, run_packs_app, H1. simpl. rewrite Hpc. simpl.
    rewrite run_rules_app, H2. simpl. rewrite Hm. simpl. rewrite Happly, Hfl.
    reflexivity. }
  assert (Hname : pkg_name (package (run_packs (names T) ((always_true, rs2) :: packs2) st2).1)
                  = pkg_name pkg).
  { rewrite run_packs_pkg_name. simpl. rewrite apply_flags_name.
    pose proof (run_rules_pkg_name rs1 st0) as Hn1. rewrite H2 in Hn1. simpl in Hn1.
    pose proof (run_packs_pkg_name (names T) packs1 (start T pkg)) as Hn0.
    rewrite H1 in Hn0. simpl in Hn0. congruence. }
  assert (H2' : finish (run_packs (names T2) (rulepacks T2) (start T2 pkg2))
                = Spec.restore_name name'
                    (finish (run_packs (names T) ((always_true, rs2) :: packs2) st2))).
  { change (start T2 pkg2) with (Spec.rename_state name' st2).
    change (names T2) with (names T).
    change (rulepacks T2) with ((always_true, rs2) :: packs2).
    rewrite run_packs_rename, finish_restore. reflexivity. }
  unfold Process. rewrite H2', Hrun.
  destruct (run_packs (names T) ((always_true, rs2) :: packs2) st2) as [st' sig].
  simpl in Hname.
  destruct sig as [| |e]; simpl; rewrite rename_back by exact Hname; reflexivity.
Qed.

(** X24.  A matching rule with [last] whose application completes stops
    everything: when the loops reach rule [i] of some pack in state [st1]
    without having returned, the rule matches there and carries [last],
    and [ApplyRule] returns for it, then [Process] returns with the
    package as that rule's effects leave it, [effname] set to the name the
    rule produced, and the counters as they were when the rule was reached
    with only the rule's own counter incremented.  Neither the rest [rs2]
    of the pack nor the later packs [packs2] have any part in the
    result. *)
Theorem last_stops_all T (pkg : Package)
    (packs1 packs2 : list rulepack) (pc : precondition)
    (rs1 rs2 : list rule_ref) (i : nat) rule st0 st1 (flags : Z) (name' : string) :
  rulepacks T = packs1 ++ (pc, rs1 ++ (i, rule) :: rs2) :: packs2 →
  run_packs (names T) packs1 (start T pkg) = (st0, Next) →
  call (names T) pc (transformed_name st0) = true →
  run_rules rs1 st0 = (st1, Next) →
  MatchRule rule (transformed_name st1) (pkg_version (package st1))
    (pkg_category (package st1)) (pkg_family (package st1)) = true →
  r_last rule = true →
  ApplyRule rule (transformed_name st1) (pkg_version (package st1)) = Ok (flags, name') →
  Process T pkg =
    (with_counters T (alter S i (counters st1)),
     set_effname name' (apply_flags flags (package st1)),
     Ok tt)
  ∧ pkg_effname (Process T pkg).1.2 = Some name'
  ∧ ∀ j, j ≠ i → matches (Process T pkg).1.1 !! j = counters st1 !! j.
Proof.
  intros Hpacks H1 Hpc H2 Hm Hlast Happly.
  assert (Hrun : run_packs (names T) (rulepacks T) (start T pkg) =
            ({| transformed_name := name';
                package := set_effname name' (apply_flags flags (package st1));
                counters := alter S i (counters st1) |}, Return)).
  { rewrite Hpacks, run_packs_app, H1. simpl. rewrite Hpc. simpl.
    rewrite run_rules_app, H2. simpl. rewrite Hm. simpl. rewrite Happly.
    rewrite (ApplyRule_flags _ _ _ _ _ Happly).
    destruct (flag_set_flags_of rule) as (_ & _ & _ & _ & ->).
    rewrite Hlast. reflexivity. }
  unfold Process. rewrite Hrun. simpl. split; [reflexivity|]. split; [reflexivity|].
  intros j Hj. apply list_lookup_alter_ne. congruence.
Qed.

(** C6.  [Process] with the rules [{setname: "$0", last: true}] and
    [{ignore: true}] on a package whose name is a backslash followed by
    [1].  The first rule has no conditions, so it matches, and its counter
    is incremented; it carries [last].  Its application does not
    complete: the name, taken as a replacement template by [dollar0.sub],
    refers to a group the pattern of [$0] does not have, and [ApplyRule]
    raises [re.error].  [Process] does not return, it raises, and
    [effname] is left unset, where a matching rule with [last] should
    have set it. *)
Theorem last_rule_raises :
  (let* r := compile_rule (Doc.with_last (Doc.with_setname "$0" Doc.empty)) in
   Ok (MatchRule r "\1" "1.0" "x" "f", r_last r)) = Ok (true, true)
  ∧ Doc.observe (Doc.process_with Doc.last_keep_name Doc.pkg_backslash_1)
    = Ok ((None, false, false), [1; 0]%nat, Raise ReError).
Proof. split; vm_compute; reflexivity. Qed.

(** C8.  The order of the renaming steps of [ApplyRule]: the [setname]
    template first, then the pairs of [replaceinname] one after the other
    in the order of the map, each on the result of the one before, then
    the lowercasing; the flags do not depend on the name.  For the map
    [{"a": "b", "b": "c"}] the name ["a"] becomes ["c"]. *)
Theorem ApplyRule_order rule (pkgname pkgversion : string) :
  ApplyRule rule pkgname pkgversion =
    (let* n := Spec.setname_step rule pkgname in
     Ok (Spec.flags_of rule, Spec.lower_step rule (Spec.replace_step rule n)))
  ∧ (let* r := compile_rule (Doc.with_replaceinname [("a", "b"); ("b", "c")] Doc.empty) in
     ApplyRule r "a" pkgversion) = Ok (0, "c").
Proof.
  split.
  - apply ApplyRule_steps.
  - reflexivity.
Qed.

(** X26.  [unignore] wins over [ignore] within one rule, and [unignorever]
    over [ignorever], when the application of the rule completes: when a
    rule with both matches and [ApplyRule] returns for it, the package
    leaves the rule with [ignore] (with [ignoreversion]) false, whatever
    it was before. *)
Theorem unignore_overrides_ignore (i : nat) rule st st' (sig : signal)
    (flags : Z) (name' : string) :
  MatchRule rule (transformed_name st) (pkg_version (package st))
    (pkg_category (package st)) (pkg_family (package st)) = true →
  ApplyRule rule (transformed_name st) (pkg_version (package st)) = Ok (flags, name') →
  run_rules [(i, rule)] st = (st', sig) →
  (r_ignore rule = true → r_unignore rule = true → pkg_ignore (package st') = false)
  ∧ (r_ignorever rule = true → r_unignorever rule = true →
     pkg_ignoreversion (package st') = false).
Proof.
  intros Hm Happly Hrun. simpl in Hrun. rewrite Hm, Happly in Hrun. simpl in Hrun.
  pose proof (ApplyRule_flags _ _ _ _ _ Happly) as ->.
  destruct (flag_set_flags_of rule) as (Hi & Hiv & Hu & Huv & Hl).
  unfold apply_flags in Hrun. rewrite Hi, Hiv, Hu, Huv, Hl in Hrun.
  split; intros Hig Hun; rewrite Hig, Hun in Hrun;
    destruct (r_last rule); inversion Hrun; subst; simpl;
    repeat match goal with |- context [if ?b then _ else _] => destruct b end;
    reflexivity.
Qed.

(** C10.  [Process] with the rules [{ignore: true, ignorever: true}] and
    [{ignore: true, unignore: true, ignorever: true, unignorever: true,
    setname: "$0"}] on a package whose name is a backslash followed by
    [1].  Both rules match (both counters are incremented).  The first
    sets [ignore] and [ignoreversion].  The second declares [unignore]
    and [unignorever], but its application ends in [ApplyRule], which
    raises [re.error] on the name taken as a replacement template, before
    any of the four assignments: the package leaves the rule with
    [ignore] and [ignoreversion] true. *)
Theorem unignore_not_reached :
  (let* r := compile_rule (Doc.with_setname "$0" Doc.both_ways) in
   Ok (MatchRule r "\1" "1.0" "x" "f", r_ignore r, r_unignore r,
       r_ignorever r, r_unignorever r)) = Ok (true, true, true, true, true)
  ∧ Doc.observe (Doc.process_with Doc.ignore_then_both_ways Doc.pkg_backslash_1)
    = Ok ((None, true, true), [1; 1]%nat, Raise ReError).
Proof. split; vm_compute; reflexivity. Qed.

(** *** The packs hold references to rules of [self.rules] *)

Lemma add_names_all (P : rule_ref → Prop) (ref : rule_ref) (l : list string) (k : packer) :
  P ref → packer_all P k → packer_all P (add_names ref l k).
Proof.
  intros Hp. revert k. induction l as [|name l IH]; intros k [Hk1 Hk2]; simpl.
  - split; assumption.
  - apply IH. split; simpl; [|assumption].
    apply Forall_app. split; [assumption|]. constructor; [assumption|constructor].
Qed.

Lemma flush_all (P : rule_ref → Prop) (k : packer) :
  packer_all P k → Forall (λ pk : rulepack, Forall P pk.2) (flush k).
Proof.
  intros [Hk1 Hk2]. unfold flush. case_bool_decide; [|assumption].
  apply Forall_app. split; [assumption|]. constructor; [assumption|constructor].
Qed.

Lemma pack_step_all (P : rule_ref → Prop) (k : packer) (ref : rule_ref) :
  P ref → packer_all P k → packer_all P (pack_step k ref).
Proof.
  intros Hp Hk. unfold pack_step. destruct (r_name ref.2) as [l|].
  - apply add_names_all; assumption.
  - split; simpl; [constructor|].
    apply Forall_app. split; [apply flush_all; assumption|].
    constructor; [|constructor]. simpl. constructor; [assumption|constructor].
Qed.

Lemma foldl_pack_step_all (P : rule_ref → Prop) (l : list rule_ref) (k : packer) :
  Forall P l → packer_all P k → packer_all P (foldl pack_step k l).
Proof.
  revert k. induction l as [|ref l IH]; intros k Hl Hk; simpl; [assumption|].
  inversion Hl; subst. apply IH; [assumption|]. apply pack_step_all; assumption.
Qed.

Lemma all_rules_point (rs : list Rule) :
  Forall (points_into rs) (imap (λ i r, (i, r)) rs).
Proof.
  apply Forall_forall. intros ref Href.
  apply elem_of_lookup_imap in Href as (i & r & -> & Hi). exact Hi.
Qed.

Lemma init_fields (doc : list RawRule) T :
  __init__ doc = Ok T →
  rmapM compile_rule doc = Ok (rules T)
  ∧ matches T = replicate (length (rules T)) 0%nat
  ∧ rulepacks T = flush (pack_rules (rules T))
  ∧ names T = pk_names (pack_rules (rules T)).
Proof.
  unfold __init__. destruct (rmapM compile_rule doc) as [rs|e]; simpl; [|discriminate].
  intros [= <-]. simpl. repeat split; reflexivity.
Qed.

Lemma init_refs (doc : list RawRule) T :
  __init__ doc = Ok T →
  Forall (λ pk : rulepack, Forall (points_into (rules T)) pk.2) (rulepacks T).
Proof.
  intros Hinit. apply init_fields in Hinit as (_ & _ & -> & _).
  apply flush_all. unfold pack_rules. apply foldl_pack_step_all.
  - apply all_rules_point.
  - split; constructor.
Qed.

(** *** What the packs hold when every rule has at most one name *)

Lemma flush_holds (k : packer) (done : list rule_ref) :
  packer_holds k done → concat (snd <$> flush k) = done.
Proof.
  intros [Hc He]. unfold flush. case_bool_decide as Hn.
  - rewrite fmap_app, concat_app. simpl. rewrite app_nil_r. exact Hc.
  - assert (Hn' : pk_names k = ∅) by (destruct (decide (pk_names k = ∅)); tauto).
    rewrite (He Hn'), app_nil_r in Hc. exact Hc.
Qed.

Lemma pack_step_holds (k : packer) (done : list rule_ref) (ref : rule_ref) :
  single_name ref → packer_holds k done → packer_holds (pack_step k ref) (done ++ [ref]).
Proof.
  intros Hs Hk. unfold pack_step. destruct (r_name ref.2) as [l|] eqn:Hl.
  - specialize (Hs l Hl). destruct l as [|name [|? ?]]; simpl in Hs; try lia.
    destruct Hk as [Hc He]. simpl. split; simpl.
    + rewrite app_assoc, Hc. reflexivity.
    + intros Hempty. exfalso. set_solver.
  - split; simpl; [|reflexivity].
    rewrite fmap_app, concat_app, (flush_holds _ _ Hk). simpl.
    rewrite !app_nil_r. reflexivity.
Qed.

Lemma foldl_pack_step_holds (l : list rule_ref) (k : packer) (done : list rule_ref) :
  Forall single_name l → packer_holds k done →
  packer_holds (foldl pack_step k l) (done ++ l).
Proof.
  revert k done. induction l as [|ref l IH]; intros k done Hl Hk; simpl.
  - rewrite app_nil_r. assumption.
  - inversion Hl; subst.
    replace (done ++ ref :: l) with ((done ++ [ref]) ++ l)
      by (rewrite <- app_assoc; reflexivity).
    apply IH; [assumption|]. apply pack_step_holds; assumption.
Qed.

(** When no rule has more than one name, the packs one after the other
    are the rule sequence: the property of the packs that the rules with
    several names break. *)
Lemma packed_rules_single_names (doc : list RawRule) T :
  __init__ doc = Ok T →
  Forall single_name (all_rules T) →
  packed_rules T = all_rules T.
Proof.
  intros Hinit Hall. unfold packed_rules.
  apply init_fields in Hinit as (_ & _ & -> & _).
  apply flush_holds. unfold pack_rules.
  apply (foldl_pack_step_holds _ _ []); [exact Hall|].
  split; reflexivity.
Qed.

(** *** Packages that match no rule *)

Lemma run_rules_no_match (rs : list rule_ref) st :
  Forall (no_match (transformed_name st) (package st)) rs →
  run_rules rs st = (st, Next).
Proof.
  induction rs as [|[i rule] rs IH]; intros Hall; simpl; [reflexivity|].
  inversion Hall as [|? ? Hhd Htl]; subst. unfold no_match in Hhd. simpl in Hhd.
  rewrite Hhd. simpl. apply IH. assumption.
Qed.

Lemma run_packs_no_match (cell : gset string) (packs : list rulepack) st :
  Forall (λ pk : rulepack, Forall (no_match (transformed_name st) (package st)) pk.2) packs →
  run_packs cell packs st = (st, Next).
Proof.
  induction packs as [|[pc rs] packs IH]; intros Hall; simpl; [reflexivity|].
  inversion Hall as [|? ? Hhd Htl]; subst. simpl in Hhd.
  destruct (call cell pc _); simpl; [|apply IH; assumption].
  rewrite (run_rules_no_match _ _ Hhd). apply IH. assumption.
Qed.

Lemma with_counters_same T : with_counters T (matches T) = T.
Proof. destruct T; reflexivity. Qed.

(** C7.  No-match identity: for a transformer built from a rule document
    (its counters in any state), a package none of whose rules match
    leaves [Process] with [effname] set to its own name, nothing else
    changed in it and no counter touched; with the two flags false at the
    start, the outputs are the name, false and false. *)
Theorem no_match_identity (doc : list RawRule) T (c : list nat) (pkg : Package) :
  __init__ doc = Ok T →
  (∀ rule, rule ∈ rules T →
     MatchRule rule (pkg_name pkg) (pkg_version pkg) (pkg_category pkg)
       (pkg_family pkg) = false) →
  Process (with_counters T c) pkg
    = (with_counters T c, set_effname (pkg_name pkg) pkg, Ok tt)
  ∧ (pkg_ignore pkg = false → pkg_ignoreversion pkg = false →
     output (Process (with_counters T c) pkg).1.2 = (Some (pkg_name pkg), false, false)).
Proof.
  intros Hinit Hno.
  assert (Hrun : run_packs (names T) (rulepacks T) (start (with_counters T c) pkg)
                 = (start (with_counters T c) pkg, Next)).
  { apply run_packs_no_match. simpl.
    pose proof (init_refs _ _ Hinit) as Hrefs.
    eapply Forall_impl; [exact Hrefs|]. intros pk Hpk. simpl.
    eapply Forall_impl; [exact Hpk|]. intros [i rule] Hp.
    unfold points_into in Hp. simpl in Hp. unfold no_match. simpl.
    apply Hno. eapply list_elem_of_lookup_2. exact Hp. }
  assert (Hp : Process (with_counters T c) pkg
               = (with_counters T c, set_effname (pkg_name pkg) pkg, Ok tt)).
  { unfold Process. simpl. rewrite Hrun. reflexivity. }
  split; [exact Hp|].
  intros Hi Hv. rewrite Hp. unfold output. simpl. rewrite Hi, Hv. reflexivity.
Qed.

(** *** The counters *)

Lemma grows_refl (c : list nat) : grows c c.
Proof. split; [reflexivity|]. intros j m Hj. exists m. split; [assumption|lia]. Qed.

Lemma grows_trans (c1 c2 c3 : list nat) : grows c1 c2 → grows c2 c3 → grows c1 c3.
Proof.
  intros [Hl1 H1] [Hl2 H2]. split; [congruence|].
  intros j m Hj. destruct (H1 _ _ Hj) as (m1 & Hj1 & Hle1).
  destruct (H2 _ _ Hj1) as (m2 & Hj2 & Hle2). exists m2. split; [assumption|lia].
Qed.

Lemma grows_alter (i : nat) (c : list nat) : grows c (alter S i c).
Proof.
  split; [apply length_alter|].
  intros j m Hj. destruct (decide (i = j)) as [->|Hne].
  - exists (S m). rewrite list_lookup_alter_eq, Hj. split; [reflexivity|lia].
  - exists m. rewrite list_lookup_alter_ne by assumption. split; [assumption|lia].
Qed.

Lemma grows_positive (c c' : list nat) (j : nat) :
  grows c c' → positive_at c j → positive_at c' j.
Proof.
  intros [_ H] [m Hm]. destruct (H _ _ Hm) as (m' & Hm' & Hle).
  destruct m' as [|m']; [lia|]. exists m'. assumption.
Qed.

Lemma alter_positive (j : nat) (c : list nat) :
  (j < length c)%nat → positive_at (alter S j c) j.
Proof.
  intros Hj. destruct (lookup_lt_is_Some_2 c j Hj) as [m Hm].
  exists m. rewrite list_lookup_alter_eq, Hm. reflexivity.
Qed.

Lemma run_rules_grows (rs : list rule_ref) st :
  grows (counters st) (counters (run_rules rs st).1).
Proof.
  revert st. induction rs as [|[i rule] rs IH]; intros st; simpl.
  - apply grows_refl.
  - destruct (MatchRule _ _ _ _ _); simpl; [|apply IH].
    destruct (ApplyRule _ _ _) as [[flags name']|e]; simpl; [|apply grows_alter].
    destruct (flag_set flags MatchResult.lastrule); simpl; [apply grows_alter|].
    eapply grows_trans; [apply grows_alter|]. apply (IH (Build_pstate _ _ _)).
Qed.

Lemma run_packs_grows (cell : gset string) (packs : list rulepack) st :
  grows (counters st) (counters (run_packs cell packs st).1).
Proof.
  revert st. induction packs as [|[pc rs] packs IH]; intros st; simpl.
  - apply grows_refl.
  - destruct (call cell pc _); simpl; [|apply IH].
    pose proof (run_rules_grows rs st) as Hg.
    destruct (run_rules rs st) as [st' [| |e]]; simpl in *; [|assumption..].
    eapply grows_trans; [exact Hg|apply IH].
Qed.

Lemma Process_counters T (pkg : Package) :
  matches (Process T pkg).1.1
  = counters (run_packs (names T) (rulepacks T) (start T pkg)).1.
Proof.
  unfold Process.
  destruct (run_packs (names T) (rulepacks T) (start T pkg)) as [st [| |e]]; reflexivity.
Qed.

Lemma Process_fixed T (pkg : Package) :
  rules (Process T pkg).1.1 = rules T
  ∧ rulepacks (Process T pkg).1.1 = rulepacks T
  ∧ names (Process T pkg).1.1 = names T.
Proof.
  unfold Process.
  destruct (run_packs (names T) (rulepacks T) (start T pkg)) as [st [| |e]];
    repeat split; reflexivity.
Qed.

Lemma Process_grows T (pkg : Package) :
  grows (matches T) (matches (Process T pkg).1.1).
Proof. rewrite Process_counters. apply (run_packs_grows _ _ (start T pkg)). Qed.

Lemma process_all_fixed T (pkgs : list Package) :
  rules (process_all T pkgs) = rules T
  ∧ rulepacks (process_all T pkgs) = rulepacks T
  ∧ names (process_all T pkgs) = names T.
Proof.
  revert T. induction pkgs as [|pkg pkgs IH]; intros T; simpl.
  - repeat split; reflexivity.
  - destruct (IH (Process T pkg).1.1) as (-> & -> & ->). apply Process_fixed.
Qed.

Lemma process_all_grows T (pkgs : list Package) :
  grows (matches T) (matches (process_all T pkgs)).
Proof.
  revert T. induction pkgs as [|pkg pkgs IH]; intros T; simpl.
  - apply grows_refl.
  - eapply grows_trans; [apply Process_grows|apply IH].
Qed.

Lemma run_rules_cons (r : rule_ref) (rest : list rule_ref) st st' :
  run_rules [r] st = (st', Next) → run_rules (r :: rest) st = run_rules rest st'.
Proof. intros H. change (r :: rest) with ([r] ++ rest). rewrite run_rules_app, H. reflexivity. Qed.

Lemma run_packs_cons (cell : gset string) (pk : rulepack) (rest : list rulepack) st st' :
  run_packs cell [pk] st = (st', Next) →
  run_packs cell (pk :: rest) st = run_packs cell rest st'.
Proof.
  intros H. change (pk :: rest) with ([pk] ++ rest). rewrite run_packs_app, H. reflexivity.
Qed.

Lemma fires_in_rules_positive (rs : list rule_ref) st (j : nat) :
  fires_in_rules rs st j → (j < length (counters st))%nat →
  positive_at (counters (run_rules rs st).1) j.
Proof.
  induction 1 as [j rule rest st Hm | r rest st st' j Hstep Hf IH]; intros Hj.
  - simpl. rewrite Hm. simpl.
    destruct (ApplyRule _ _ _) as [[flags name']|e]; simpl;
      [|apply alter_positive; assumption].
    destruct (flag_set flags MatchResult.lastrule); simpl;
      [apply alter_positive; assumption|].
    eapply grows_positive; [apply (run_rules_grows rest (Build_pstate _ _ _))|].
    simpl. apply alter_positive; assumption.
  - rewrite (run_rules_cons _ _ _ _ Hstep). apply IH.
    pose proof (run_rules_grows [r] st) as [Hl _]. rewrite Hstep in Hl. simpl in Hl.
    lia.
Qed.

Lemma fires_in_packs_positive (cell : gset string) (packs : list rulepack) st (j : nat) :
  fires_in_packs cell packs st j → (j < length (counters st))%nat →
  positive_at (counters (run_packs cell packs st).1) j.
Proof.
  induction 1 as [pc rs rest st j Hpc Hf | pk rest st st' j Hstep Hf IH]; intros Hj.
  - simpl. rewrite Hpc. simpl.
    pose proof (fires_in_rules_positive _ _ _ Hf Hj) as Hpos.
    destruct (run_rules rs st) as [st' [| |e]]; simpl in *; [|assumption..].
    eapply grows_positive; [apply run_packs_grows|assumption].
  - rewrite (run_packs_cons _ _ _ _ _ Hstep). apply IH.
    pose proof (run_packs_grows cell [pk] st) as [Hl _]. rewrite Hstep in Hl.
    simpl in Hl. lia.
Qed.

Lemma fires_in_rules_ref (rs : list rule_ref) st (j : nat) :
  fires_in_rules rs st j → ∃ rule, (j, rule) ∈ rs.
Proof.
  induction 1 as [j rule rest st Hm | r rest st st' j Hstep Hf [rule IH]].
  - exists rule. apply list_elem_of_here.
  - exists rule. apply list_elem_of_further. assumption.
Qed.

Lemma fires_in_packs_ref (cell : gset string) (packs : list rulepack) st (j : nat) :
  fires_in_packs cell packs st j → ∃ pk rule, pk ∈ packs ∧ (j, rule) ∈ pk.2.
Proof.
  induction 1 as [pc rs rest st j Hpc Hf | pk rest st st' j Hstep Hf (pk' & rule & H1 & H2)].
  - destruct (fires_in_rules_ref _ _ _ Hf) as [rule Hr].
    exists (pc, rs), rule. split; [apply list_elem_of_here|assumption].
  - exists pk', rule. split; [apply list_elem_of_further|]; assumption.
Qed.

(** *** [GetUnmatchedRules] *)

Lemma unmatched_loop_filter (l : list (Rule * nat)) (acc : list string) :
  unmatched_loop l acc
  = acc ++ ((λ x : Rule * nat, r_pretty x.1) <$> filter (λ x, x.2 = 0%nat) l).
Proof.
  revert acc. induction l as [|[rule m] l IH]; intros acc.
  - simpl. rewrite app_nil_r. reflexivity.
  - destruct m as [|m]; cbn [unmatched_loop Nat.eqb].
    + rewrite filter_cons_True by reflexivity. rewrite IH, fmap_cons.
      rewrite <- app_assoc. reflexivity.
    + rewrite filter_cons_False by (simpl; lia). apply IH.
Qed.

Lemma compile_rule_pretty (raw : RawRule) rule :
  compile_rule raw = Ok rule → r_pretty rule = pformat raw.
Proof.
  unfold compile_rule.
  destruct (compile_field (raw_namepat raw)); simpl; [|discriminate].
  destruct (compile_field (raw_verpat raw)); simpl; [|discriminate].
  intros [= <-]. reflexivity.
Qed.

Lemma rmapM_Forall2 {A B} (f : A → result B) (l : list A) (l' : list B) :
  rmapM f l = Ok l' → Forall2 (λ a b, f a = Ok b) l l'.
Proof.
  revert l'. induction l as [|a l IH]; intros l'; simpl.
  - intros [= <-]. constructor.
  - destruct (f a) as [b|e] eqn:Hb; simpl; [|discriminate].
    destruct (rmapM f l) as [bs|e]; simpl; [|discriminate].
    intros [= <-]. constructor; [assumption|]. apply IH. reflexivity.
Qed.

Lemma pretty_of_zip (doc : list RawRule) (rs : list Rule) (ms : list nat) :
  Forall2 (λ raw rule, compile_rule raw = Ok rule) doc rs →
  (λ x : Rule * nat, r_pretty x.1) <$> filter (λ x, x.2 = 0%nat) (zip rs ms)
  = (λ x : RawRule * nat, pformat x.1) <$> filter (λ x, x.2 = 0%nat) (zip doc ms).
Proof.
  intros H. revert ms. induction H as [|raw rule doc rs Hc _ IH]; intros ms.
  - reflexivity.
  - destruct ms as [|m ms]; [reflexivity|]. cbn [zip zip_with].
    destruct m as [|m].
    + rewrite !filter_cons_True by reflexivity. rewrite !fmap_cons.
      cbn [fst]. rewrite (compile_rule_pretty _ _ Hc), IH. reflexivity.
    + rewrite !filter_cons_False by (simpl; lia). apply IH.
Qed.

(** X25.  After a transformer built from a rule document has processed any
    packages, [GetUnmatchedRules] returns the renderings [pformat] made of
    the rules as they were in the document (before their normalization),
    for exactly the rules whose counter is 0, in the order of the
    document; and a rule that the loops of [Process] reached and matched
    during any of the calls has a counter that is not 0, so it is not
    among them. *)
Theorem GetUnmatchedRules_spec (doc : list RawRule) T (pkgs : list Package) :
  __init__ doc = Ok T →
  GetUnmatchedRules (process_all T pkgs)
    = (λ x : RawRule * nat, pformat x.1)
        <$> filter (λ x, x.2 = 0%nat) (zip doc (matches (process_all T pkgs)))
  ∧ length (matches (process_all T pkgs)) = length doc
  ∧ ∀ (pkgs1 pkgs2 : list Package) (pkg : Package) (j : nat),
      pkgs = pkgs1 ++ pkg :: pkgs2 →
      fires (process_all T pkgs1) pkg j →
      ∃ m, matches (process_all T pkgs) !! j = Some (S m).
Proof.
  intros Hinit.
  pose proof (init_fields _ _ Hinit) as (Hrs & Hms & _ & _).
  pose proof (rmapM_Forall2 _ _ _ Hrs) as Hall.
  assert (Hlen : length (matches T) = length doc).
  { rewrite Hms, length_replicate. symmetry. eapply Forall2_length. exact Hall. }
  split; [|split].
  - unfold GetUnmatchedRules. rewrite unmatched_loop_filter. simpl.
    destruct (process_all_fixed T pkgs) as (-> & _ & _).
    apply pretty_of_zip. assumption.
  - destruct (process_all_grows T pkgs) as [-> _]. exact Hlen.
  - intros pkgs1 pkgs2 pkg j -> Hf.
    unfold process_all at 1. rewrite foldl_app. simpl.
    fold (process_all T pkgs1).
    set (T1 := process_all T pkgs1) in *.
    change (positive_at (matches (process_all (Process T1 pkg).1.1 pkgs2)) j).
    eapply grows_positive; [apply process_all_grows|].
    rewrite Process_counters.
    apply fires_in_packs_positive; [exact Hf|].
    simpl.
    destruct (process_all_fixed T pkgs1) as (Hr1 & Hp1 & _). fold T1 in Hr1, Hp1.
    destruct (process_all_grows T pkgs1) as [Hl1 _]. fold T1 in Hl1.
    rewrite Hl1, Hms, length_replicate.
    unfold fires in Hf. apply fires_in_packs_ref in Hf as (pk & rule & Hpk & Hrule).
    rewrite Hp1 in Hpk.
    pose proof (init_refs _ _ Hinit) as Hrefs.
    rewrite Forall_forall in Hrefs. specialize (Hrefs _ Hpk).
    rewrite Forall_forall in Hrefs. specialize (Hrefs _ Hrule).
    unfold points_into in Hrefs. simpl in Hrefs.
    eapply lookup_lt_Some. exact Hrefs.
Qed.

(** C9.  [GetUnmatchedRules] after [Process] with the rules
    [{name: a, setname: b}] and [{ignore: true}] on a package named [a],
    version [1.0], category [x], family [f].  The conditions of both
    rules hold for the package: [MatchRule] is true for each.  The pack
    of the first rule is never entered, because its precondition reads
    [names] after [names = set()] has rebound it, so the counter of the
    first rule stays 0 and [GetUnmatchedRules] reports the rule, whose
    conditions held during the call. *)
Theorem matching_rule_stays_reported :
  (let* T := __init__ Doc.rename_then_ignore in
   Ok ((λ r, MatchRule r "a" "1.0" "x" "f") <$> rules T,
       matches (process_all T [Doc.pkg_a]),
       GetUnmatchedRules (process_all T [Doc.pkg_a])))
  = Ok ([true; true], [0; 1]%nat,
        [pformat (Doc.with_setname "b" (Doc.with_name (YScalar "a") Doc.empty))]).
Proof. vm_compute. reflexivity. Qed.

(** *** The template of [setname] *)

Lemma expand_go_plain (fuel : nat) (m0 repl : string) :
  Template.has_backslash repl = false →
  (String.length repl < fuel)%nat →
  Template.expand_go fuel m0 repl = Ok repl.
Proof.
  revert repl. induction fuel as [|fuel IH]; intros repl Hb Hlen; [lia|].
  destruct repl as [|c repl]; simpl; [reflexivity|].
  simpl in Hb. apply orb_false_iff in Hb as [Hc Hb]. rewrite Hc. simpl.
  rewrite IH; [reflexivity|assumption|simpl in Hlen; lia].
Qed.

(** A name without a backslash is inserted as it is. *)
Lemma dollar0_sub_plain (name template : string) :
  Template.has_backslash name = false →
  Template.dollar0_sub name template = Ok (literal_dollar0 name template).
Proof.
  intros Hb. unfold Template.dollar0_sub, Template.expand.
  rewrite expand_go_plain; [reflexivity|assumption|lia].
Qed.

(** The part of the claim about [setname] that holds: for a rule without
    [namepat], or whose pattern does not match, and a current name without
    a backslash, the new name (before [replaceinname] and [tolowername])
    is the template with every [$0] replaced by the name. *)
Lemma setname_step_plain rule (template pkgname : string) :
  r_setname rule = Some template →
  r_namepat rule ≫= (λ p, re_match p pkgname) = None →
  Template.has_backslash pkgname = false →
  setname_step rule pkgname = Ok (literal_dollar0 pkgname template).
Proof.
  intros Hs Hm Hb. unfold setname_step. rewrite Hs, Hm.
  apply dollar0_sub_plain. assumption.
Qed.

End Properties.

(** * The engine at work: concrete runs with the reference engine *)

Section Runs.

Import RefRe Spec.
Local Open Scope list_scope.

(** C1.  Packed evaluation against the evaluation of every rule in
    order, for the rules [{name: a, setname: b}] and [{ignore: true}] and
    a package named [a].  When the second rule is read [names] is bound
    to a new empty set, and the precondition of the first pack, which
    reads that variable when it is called, is never true: [Process] skips
    the first rule and leaves [effname = "a"] with counters 0 and 1.
    Evaluating both rules in order renames the package to [b], with
    counters 1 and 1.  The two evaluations differ. *)
Theorem packed_evaluation_differs :
  Doc.observe (Doc.process_with Doc.rename_then_ignore Doc.pkg_a)
    = Ok ((Some "a", true, false), [0; 1]%nat, Ok tt)
  ∧ Doc.observe (Doc.process_unpacked_with Doc.rename_then_ignore Doc.pkg_a)
    = Ok ((Some "b", true, false), [1; 1]%nat, Ok tt).
Proof. split; vm_compute; reflexivity. Qed.

(** C2.  The rule slices of the packs for the one-rule document
    [{name: [a, b], ...}]: the rule is appended to its pack once for each
    of its two names, so the concatenation of the packs holds rule 0
    twice, while the rule sequence holds it once. *)
Theorem packs_repeat_rule :
  (let* T := __init__ Doc.two_names in
   Ok (fst <$> packed_rules T, fst <$> all_rules T))
  = Ok ([0; 0]%nat, [0]%nat).
Proof. vm_compute. reflexivity. Qed.

(** C4.  The rule [{setname: "$0"}], without [namepat], applied to a name
    made of [a], two backslashes and [b]: the name is handed to [sub] as a
    replacement template, the two backslashes are read as an escaped
    backslash, and the new name has a single one, where replacing the
    [$0] by the name gives the name itself. *)
Theorem setname_expands_backslashes :
  (let* r := compile_rule (Doc.with_setname "$0" Doc.empty) in
   ApplyRule r "a\\b" "1.0") = Ok (0, "a\b")
  ∧ literal_dollar0 "a\\b" "$0" = "a\\b".
Proof. split; vm_compute; reflexivity. Qed.

(** C5.  [Process] with the rule [{setname: "$0"}] on a package whose
    name is a backslash followed by [1]: the name, taken as a replacement
    template, refers to a group the pattern of [$0] does not have, and the
    call raises [re.error] after the counter of the rule has been
    incremented; [effname] is never set. *)
Theorem Process_raises :
  Doc.observe (Doc.process_with Doc.keep_name (Doc.pkg "\1" "1.0" "x" "f"))
  = Ok ((None, false, false), [1]%nat, Raise ReError).
Proof. vm_compute. reflexivity. Qed.

(** *** Instances of the general theorems *)

Lemma later_rules_see_current_name_witness :
  rulepacks (Doc.build Doc.rename_into_pack)
    = [] ++ (always_true,
             [] ++ (0%nat, Doc.plain (Doc.with_setname "b" Doc.empty)) :: [])
            :: [(name_in_names,
                 [(1%nat, Doc.plain (Doc.with_ignore
                                       (Doc.with_name (YScalar "b") Doc.empty)))])]
  ∧ ApplyRule (Doc.plain (Doc.with_setname "b" Doc.empty)) "a" "1.0" = Ok (0, "b")
  ∧ Process (Doc.build Doc.rename_into_pack) Doc.pkg_a
    = (let r := Process
                  (rest_of (Doc.build Doc.rename_into_pack) [1; 0]%nat
                     [(always_true, []);
                      (name_in_names,
                       [(1%nat, Doc.plain (Doc.with_ignore
                                             (Doc.with_name (YScalar "b") Doc.empty)))])])
                  (Doc.pkg "b" "1.0" "x" "f") in
       (with_counters (Doc.build Doc.rename_into_pack) (matches r.1.1),
        rename "a" r.1.2, r.2)).
Proof.
  assert (H1 : rulepacks (Doc.build Doc.rename_into_pack)
    = [] ++ (always_true,
             [] ++ (0%nat, Doc.plain (Doc.with_setname "b" Doc.empty)) :: [])
            :: [(name_in_names,
                 [(1%nat, Doc.plain (Doc.with_ignore
                                       (Doc.with_name (YScalar "b") Doc.empty)))])])
    by reflexivity.
  assert (H2 : ApplyRule (Doc.plain (Doc.with_setname "b" Doc.empty)) "a" "1.0"
               = Ok (0, "b")) by reflexivity.
  split; [exact H1|]. split; [exact H2|].
  refine (later_rules_see_current_name (Doc.build Doc.rename_into_pack) Doc.pkg_a
            [] _ always_true [] [] 0%nat _
            (start (Doc.build Doc.rename_into_pack) Doc.pkg_a)
            (start (Doc.build Doc.rename_into_pack) Doc.pkg_a)
            0 "b" H1 _ _ _ _ _ H2); reflexivity.
Defined.

Lemma last_stops_all_witness :
  rulepacks (Doc.build Doc.last_then_ignore)
    = [] ++ (always_true,
             [] ++ (0%nat, Doc.plain (Doc.with_last (Doc.with_setname "b" Doc.empty))) :: [])
            :: [(always_true, [(1%nat, Doc.plain (Doc.with_ignore Doc.empty))])]
  ∧ Process (Doc.build Doc.last_then_ignore) Doc.pkg_a
    = (with_counters (Doc.build Doc.last_then_ignore) [1; 0]%nat,
       set_effname "b" Doc.pkg_a, Ok tt).
Proof.
  assert (H1 : rulepacks (Doc.build Doc.last_then_ignore)
    = [] ++ (always_true,
             [] ++ (0%nat, Doc.plain (Doc.with_last (Doc.with_setname "b" Doc.empty))) :: [])
            :: [(always_true, [(1%nat, Doc.plain (Doc.with_ignore Doc.empty))])])
    by (vm_compute; reflexivity).
  split; [exact H1|].
  refine (proj1 (last_stops_all (Doc.build Doc.last_then_ignore) Doc.pkg_a
            [] _ always_true [] [] 0%nat _
            (start (Doc.build Doc.last_then_ignore) Doc.pkg_a)
            (start (Doc.build Doc.last_then_ignore) Doc.pkg_a)
            4 "b" H1 _ _ _ _ _ _)); vm_compute; reflexivity.
Defined.

Lemma no_match_identity_witness :
  __init__ Doc.two_conditions = Ok (Doc.build Doc.two_conditions)
  ∧ Forall (λ rule, MatchRule rule "a" "1.0" "x" "f" = false)
      (rules (Doc.build Doc.two_conditions))
  ∧ Process (with_counters (Doc.build Doc.two_conditions) [3; 5]%nat) Doc.pkg_a
    = (with_counters (Doc.build Doc.two_conditions) [3; 5]%nat,
       set_effname "a" Doc.pkg_a, Ok tt).
Proof.
  assert (H1 : __init__ Doc.two_conditions = Ok (Doc.build Doc.two_conditions))
    by (vm_compute; reflexivity).
  assert (H2 : Forall (λ rule, MatchRule rule "a" "1.0" "x" "f" = false)
                 (rules (Doc.build Doc.two_conditions)))
    by (repeat constructor).
  split; [exact H1|]. split; [exact H2|].
  refine (proj1 (no_match_identity Doc.two_conditions (Doc.build Doc.two_conditions)
                   [3; 5]%nat Doc.pkg_a H1 _)).
  intros rule Hin. rewrite Forall_forall in H2. apply (H2 rule Hin).
Defined.

Lemma GetUnmatchedRules_spec_witness :
  __init__ Doc.two_conditions = Ok (Doc.build Doc.two_conditions)
  ∧ fires (process_all (Doc.build Doc.two_conditions) [])
      (Doc.pkg "a" "1.0" "x" "freebsd") 1
  ∧ GetUnmatchedRules
      (process_all (Doc.build Doc.two_conditions) [Doc.pkg "a" "1.0" "x" "freebsd"])
    = [pformat (Doc.with_ignore (Doc.with_name (YScalar "x") Doc.empty))]
  ∧ ∃ m, matches (process_all (Doc.build Doc.two_conditions)
                    [Doc.pkg "a" "1.0" "x" "freebsd"]) !! 1%nat = Some (S m).
Proof.
  assert (H1 : __init__ Doc.two_conditions = Ok (Doc.build Doc.two_conditions))
    by reflexivity.
  assert (H2 : fires (process_all (Doc.build Doc.two_conditions) [])
                 (Doc.pkg "a" "1.0" "x" "freebsd") 1).
  { eapply fires_pack_later; [reflexivity|].
    eapply fires_pack_here; [reflexivity|].
    apply fires_here. reflexivity. }
  pose proof (GetUnmatchedRules_spec Doc.two_conditions (Doc.build Doc.two_conditions)
                [Doc.pkg "a" "1.0" "x" "freebsd"] H1) as (H3 & _ & H4).
  split; [exact H1|]. split; [exact H2|]. split.
  - rewrite H3. reflexivity.
  - exact (H4 [] [] (Doc.pkg "a" "1.0" "x" "freebsd") 1%nat eq_refl H2).
Defined.

Lemma unignore_overrides_ignore_witness :
  MatchRule (Doc.plain Doc.both_ways) "a" "1.0" "x" "f" = true
  ∧ ApplyRule (Doc.plain Doc.both_ways) "a" "1.0" = Ok (27, "a")
  ∧ run_rules [(0%nat, Doc.plain Doc.both_ways)]
      {| transformed_name := "a"; package := Doc.ignored true; counters := [0%nat] |}
    = ({| transformed_name := "a"; package := Doc.ignored false; counters := [1%nat] |},
       Next)
  ∧ pkg_ignore (Doc.ignored false) = false
  ∧ pkg_ignoreversion (Doc.ignored false) = false.
Proof.
  assert (H1 : MatchRule (Doc.plain Doc.both_ways) "a" "1.0" "x" "f" = true)
    by reflexivity.
  assert (H2 : ApplyRule (Doc.plain Doc.both_ways) "a" "1.0" = Ok (27, "a"))
    by reflexivity.
  assert (H3 : run_rules [(0%nat, Doc.plain Doc.both_ways)]
      {| transformed_name := "a"; package := Doc.ignored true; counters := [0%nat] |}
    = ({| transformed_name := "a"; package := Doc.ignored false; counters := [1%nat] |},
       Next)) by reflexivity.
  pose proof (unignore_overrides_ignore 0%nat (Doc.plain Doc.both_ways)
                {| transformed_name := "a"; package := Doc.ignored true;
                   counters := [0%nat] |}
                _ _ _ _ H1 H2 H3) as [Hi Hv].
  split; [exact H1|]. split; [exact H2|]. split; [exact H3|].
  split; [apply Hi|apply Hv]; reflexivity.
Defined.

(** *** The examples of the specification *)

(** Template substitution with a group, and with [$0] and no pattern. *)
Example strip_lib_libfoo :
  (let* r := compile_rule Doc.strip_lib in ApplyRule r "libfoo" "1.0") = Ok (0, "foo").
Proof. vm_compute. reflexivity. Qed.

Example prefix_foo :
  (let* r := compile_rule (Doc.with_setname "prefix-$0" Doc.empty) in
   ApplyRule r "foo" "1.0") = Ok (0, "prefix-foo").
Proof. vm_compute. reflexivity. Qed.

(** A reference to a group the pattern does not have raises. *)
Example strip_lib_2_raises :
  (let* r := compile_rule Doc.strip_lib_2 in ApplyRule r "libfoo" "1.0")
  = Raise IndexError.
Proof. vm_compute. reflexivity. Qed.

(** The end-to-end scenario: ignored by the first rule, renamed by the
    second. *)
Example end_to_end_run :
  Doc.observe (Doc.process_with Doc.end_to_end (Doc.pkg "Foo" "1.0" "x" "freebsd"))
  = Ok ((Some "foo", true, false), [1; 1]%nat, Ok tt).
Proof. vm_compute. reflexivity. Qed.

(** Renaming changes which pack is entered: the package comes as [a], the
    first rule renames it to [b], and the pack of the rule for [b] is
    entered and the rule applied. *)
Example rename_into_pack_run :
  Doc.observe (Doc.process_with Doc.rename_into_pack Doc.pkg_a)
  = Ok ((Some "b", true, false), [1; 1]%nat, Ok tt).
Proof. vm_compute. reflexivity. Qed.

(** A rule with two names is in its pack twice and is applied twice. *)
Example two_names_run :
  Doc.observe (Doc.process_with Doc.two_names Doc.pkg_a)
    = Ok ((Some "c", false, false), [2]%nat, Ok tt)
  ∧ Doc.observe (Doc.process_unpacked_with Doc.two_names Doc.pkg_a)
    = Ok ((Some "b", false, false), [1]%nat, Ok tt).
Proof. split; vm_compute; reflexivity. Qed.

(** [verlonger: 2] asks for more than two components. *)
Example verlonger_run :
  (Z.of_nat (length (PyStr.split "." "1.2.3")) >? 2) = true
  ∧ (Z.of_nat (length (PyStr.split "." "1.2")) >? 2) = false.
Proof. split; reflexivity. Qed.

Example replace_run :
  PyStr.replace "aa" "b" "aaaxaa" = "baxb" ∧ PyStr.replace "" "-" "ab" = "-a-b-".
Proof. split; reflexivity. Qed.

(** Escapes of a name used as a replacement template: group 0, an octal
    code, a character that keeps its backslash, a bad escape. *)
Example dollar0_escapes :
  Template.dollar0_sub "a\g<0>" "$0" = Ok "a$0"
  ∧ Template.dollar0_sub "\101\-" "$0$01" = Ok "A\-A\-1"
  ∧ Template.dollar0_sub "a\q" "$0" = Raise ReError.
Proof. repeat split; reflexivity. Qed.

End Runs.

(** * Further properties of the transformer *)

Section MoreProperties.

Context {RE : ReEngine} {PP : PrettyPrinter} {SL : StrLower}.

Local Open Scope list_scope.
Import Spec More.

Implicit Types (rule : Rule) (st : pstate) (T : PackageTransformer).

(** *** [MatchRule] *)

Lemma not_in_false (field : option (list string)) (x : string) :
  not_in field x = false ↔ ∀ l, field = Some l → x ∈ l.
Proof.
  unfold not_in, PyStr.contains. destruct field as [l|].
  - rewrite negb_false_iff, bool_decide_eq_true. split.
    + intros H l' [= <-]. exact H.
    + intros H. apply H. reflexivity.
  - split; [intros _ l [=]|reflexivity].
Qed.

Lemma not_matching_false (field : option pattern) (x : string) :
  not_matching field x = false ↔ ∀ p, field = Some p → is_Some (re_match p x).
Proof.
  unfold not_matching. destruct field as [p|].
  - rewrite negb_false_iff, bool_decide_eq_true. split.
    + intros H p' [= <-]. exact H.
    + intros H. apply H. reflexivity.
  - split; [intros _ p [=]|reflexivity].
Qed.

Lemma not_longer_false (field : option Z) (v : string) :
  match field with
  | Some n => negb (n <? Z.of_nat (length (PyStr.split "." v)))
  | None => false
  end = false
  ↔ ∀ k, field = Some k → k < Z.of_nat (length (PyStr.split "." v)).
Proof.
  destruct field as [n|].
  - rewrite negb_false_iff, Z.ltb_lt. split.
    + intros H k [= <-]. exact H.
    + intros H. apply H. reflexivity.
  - split; [intros _ k [=]|reflexivity].
Qed.

(** X1.  [MatchRule] is the conjunction of the conditions the rule
    declares, whatever the order in which the source tests them; a
    condition the rule does not declare asks for nothing, so a rule without
    conditions matches every package, and a rule whose list of names (of
    versions, categories, families) is empty matches none. *)
Theorem MatchRule_iff rule (pkgname pkgversion pkgcategory pkgfamily : string) :
  MatchRule rule pkgname pkgversion pkgcategory pkgfamily = true
  ↔ (∀ l, r_family rule = Some l → pkgfamily ∈ l)
    ∧ (∀ l, r_category rule = Some l → pkgcategory ∈ l)
    ∧ (∀ l, r_name rule = Some l → pkgname ∈ l)
    ∧ (∀ p, r_namepat rule = Some p → is_Some (re_match p pkgname))
    ∧ (∀ l, r_ver rule = Some l → pkgversion ∈ l)
    ∧ (∀ p, r_verpat rule = Some p → is_Some (re_match p pkgversion))
    ∧ (∀ k, r_verlonger rule = Some k →
         k < Z.of_nat (length (PyStr.split "." pkgversion))).
Proof.
  rewrite <- !not_in_false, <- !not_matching_false, <- not_longer_false.
  unfold MatchRule.
  destruct (not_in (r_family rule) pkgfamily), (not_in (r_category rule) pkgcategory),
    (not_in (r_name rule) pkgname), (not_matching (r_namepat rule) pkgname),
    (not_in (r_ver rule) pkgversion), (not_matching (r_verpat rule) pkgversion),
    (match r_verlonger rule with
     | Some n => negb (n <? Z.of_nat (length (PyStr.split "." pkgversion)))
     | None => false
     end); intuition congruence.
Qed.

Lemma split_go_length (sep : ascii) (cur s : string) :
  length (PyStr.split_go sep cur s) = S (count_char sep s).
Proof.
  revert cur. induction s as [|c s IH]; intros cur; simpl; [reflexivity|].
  destruct (Ascii.eqb c sep); simpl; rewrite IH; reflexivity.
Qed.

(** X2.  The rule [{verlonger: k}] matches a package exactly when its
    version has at least [k] dots, whatever stands between them: the
    components counted are the fields of [split], empty ones included, so
    the empty version counts as one component. *)
Theorem verlonger_counts_dots (k : Z) (pkgname pkgversion pkgcategory pkgfamily : string) :
  (let* r := compile_rule (verlonger_only k) in
   Ok (MatchRule r pkgname pkgversion pkgcategory pkgfamily))
  = Ok (bool_decide (k ≤ Z.of_nat (count_char "." pkgversion))).
Proof.
  simpl. unfold MatchRule, PyStr.split. simpl. rewrite split_go_length. f_equal.
  destruct (k <? Z.of_nat (S (count_char "." pkgversion))) eqn:Hk; simpl.
  - apply Z.ltb_lt in Hk. symmetry. apply bool_decide_eq_true. lia.
  - apply Z.ltb_ge in Hk. symmetry. apply bool_decide_eq_false. lia.
Qed.

(** *** What [Process] changes *)

(** X3.  [Process] changes nothing of the transformer but the counters of
    the rules: the rules, the packs and the cell of [names] are the same
    after the call, there are as many counters as before, and no counter
    has gone down, whether the call returned or raised. *)
Theorem Process_only_counts T (pkg : Package) :
  rules (Process T pkg).1.1 = rules T
  ∧ rulepacks (Process T pkg).1.1 = rulepacks T
  ∧ names (Process T pkg).1.1 = names T
  ∧ length (matches (Process T pkg).1.1) = length (matches T)
  ∧ ∀ j m, matches T !! j = Some m →
      ∃ m', matches (Process T pkg).1.1 !! j = Some m' ∧ (m ≤ m')%nat.
Proof.
  destruct (Process_fixed T pkg) as (H1 & H2 & H3).
  destruct (Process_grows T pkg) as [H4 H5].
  repeat split; assumption.
Qed.

Lemma apply_flags_inputs (flags : Z) (p : Package) :
  inputs (apply_flags flags p) = inputs p
  ∧ pkg_effname (apply_flags flags p) = pkg_effname p.
Proof.
  unfold apply_flags.
  destruct (flag_set flags _), (flag_set flags _), (flag_set flags _),
    (flag_set flags _); split; reflexivity.
Qed.

Lemma run_rules_inputs (rs : list rule_ref) st :
  inputs (package (run_rules rs st).1) = inputs (package st).
Proof.
  revert st. induction rs as [|[i rule] rs IH]; intros st; simpl.
  - reflexivity.
  - destruct (MatchRule _ _ _ _ _); simpl; [|apply IH].
    destruct (ApplyRule _ _ _) as [[flags name']|e]; [|reflexivity].
    destruct (flag_set flags MatchResult.lastrule); simpl.
    + apply (apply_flags_inputs flags (package st)).
    + rewrite IH. simpl. apply apply_flags_inputs.
Qed.

Lemma run_packs_inputs (cell : gset string) (packs : list rulepack) st :
  inputs (package (run_packs cell packs st).1) = inputs (package st).
Proof.
  revert st. induction packs as [|[pc rs] packs IH]; intros st; simpl.
  - reflexivity.
  - destruct (call cell pc _); simpl; [|apply IH].
    pose proof (run_rules_inputs rs st) as Hn.
    destruct (run_rules rs st) as [st' [| |e]]; simpl in *; [|assumption..].
    rewrite IH. assumption.
Qed.

(** X4.  [Process] never writes the attributes it reads: the name, the
    version, the category and the family of the package are the same
    after the call; the renaming only shows in [effname]. *)
Theorem Process_keeps_inputs T (pkg : Package) :
  pkg_name (Process T pkg).1.2 = pkg_name pkg
  ∧ pkg_version (Process T pkg).1.2 = pkg_version pkg
  ∧ pkg_category (Process T pkg).1.2 = pkg_category pkg
  ∧ pkg_family (Process T pkg).1.2 = pkg_family pkg.
Proof.
  assert (H : inputs (Process T pkg).1.2 = inputs pkg).
  { unfold Process.
    pose proof (run_packs_inputs (names T) (rulepacks T) (start T pkg)) as Hn.
    destruct (run_packs (names T) (rulepacks T) (start T pkg)) as [st [| |e]];
      simpl in *; exact Hn. }
  unfold inputs in H. inversion H. repeat split; assumption.
Qed.

Lemma run_rules_effname (rs : list rule_ref) st :
  match (run_rules rs st).2 with
  | Return =>
      pkg_effname (package (run_rules rs st).1) = Some (transformed_name (run_rules rs st).1)
  | _ => pkg_effname (package (run_rules rs st).1) = pkg_effname (package st)
  end.
Proof.
  revert st. induction rs as [|[i rule] rs IH]; intros st; simpl.
  - reflexivity.
  - destruct (MatchRule _ _ _ _ _); simpl; [|apply IH].
    destruct (ApplyRule _ _ _) as [[flags name']|e]; [|reflexivity].
    destruct (flag_set flags MatchResult.lastrule); simpl; [reflexivity|].
    specialize (IH {| transformed_name := name'; package := apply_flags flags (package st);
                      counters := alter S i (counters st) |}).
    destruct (run_rules rs _) as [st' [| |e]]; simpl in *;
      [rewrite IH; apply apply_flags_inputs
      |exact IH
      |rewrite IH; apply apply_flags_inputs].
Qed.

Lemma run_packs_effname (cell : gset string) (packs : list rulepack) st :
  match (run_packs cell packs st).2 with
  | Return =>
      pkg_effname (package (run_packs cell packs st).1)
      = Some (transformed_name (run_packs cell packs st).1)
  | _ => pkg_effname (package (run_packs cell packs st).1) = pkg_effname (package st)
  end.
Proof.
  revert st. induction packs as [|[pc rs] packs IH]; intros st; simpl.
  - reflexivity.
  - destruct (call cell pc _); simpl; [|apply IH].
    pose proof (run_rules_effname rs st) as Hn.
    destruct (run_rules rs st) as [st' [| |e]]; simpl in *; [|assumption..].
    specialize (IH st').
    destruct (run_packs cell packs st') as [st'' [| |e]]; simpl in *; congruence.
Qed.

(** X5.  [effname] is set exactly by the calls that return: after a call
    that returned, by a [last] rule or at the end of the packs, the package
    has an [effname]; after a call that raised, [effname] is what it was
    before the call. *)
Theorem effname_set_iff_returned T (pkg : Package) :
  match (Process T pkg).2 with
  | Ok _ => is_Some (pkg_effname (Process T pkg).1.2)
  | Raise _ => pkg_effname (Process T pkg).1.2 = pkg_effname pkg
  end.
Proof.
  unfold Process.
  pose proof (run_packs_effname (names T) (rulepacks T) (start T pkg)) as Hn.
  destruct (run_packs (names T) (rulepacks T) (start T pkg)) as [st [| |e]];
    simpl in *; eauto.
Qed.

(** *** [__init__] *)

Lemma compile_field_ok (field : option string) :
  (∃ p, compile_field field = Ok p)
  ↔ ∀ text, field = Some text → ∃ p, re_compile (text +:+ "$") = Ok p.
Proof.
  unfold compile_field. destruct field as [text|].
  - split.
    + intros [p Hp] text' [= <-].
      destruct (re_compile (text +:+ "$")) as [q|e]; [eauto|discriminate].
    + intros H. destruct (H text eq_refl) as [q ->]. simpl. eauto.
  - split; [intros _ text [=]|eauto].
Qed.

Lemma compile_rule_ok (raw : RawRule) :
  (∃ rule, compile_rule raw = Ok rule) ↔ compiles raw.
Proof.
  unfold compiles. rewrite <- !compile_field_ok. unfold compile_rule. split.
  - intros [rule H].
    destruct (compile_field (raw_namepat raw)) as [p|]; simpl in H; [|discriminate].
    destruct (compile_field (raw_verpat raw)) as [q|]; simpl in H; [|discriminate].
    eauto.
  - intros [[p ->] [q ->]]. simpl. eauto.
Qed.

Lemma rmapM_ok {A B} (f : A → result B) (l : list A) :
  (∃ l', rmapM f l = Ok l') ↔ Forall (λ a, ∃ b, f a = Ok b) l.
Proof.
  induction l as [|a l IH]; simpl.
  - split; [constructor|eauto].
  - split.
    + intros [l' H]. destruct (f a) as [b|e] eqn:Hb; simpl in H; [|discriminate].
      destruct (rmapM f l) as [bs|e]; simpl in H; [|discriminate].
      constructor; [eauto|]. apply IH. eauto.
    + intros H. inversion H as [|? ? [b Hb] Hl]; subst.
      apply IH in Hl as [bs Hbs]. rewrite Hb, Hbs. simpl. eauto.
Qed.

(** X6.  The constructor fails fast and only on patterns: it returns a
    transformer exactly when every [namepat] and every [verpat] of the
    document, with [$] appended, compiles; and then the transformer has one
    rule and one counter for each rule of the document, every counter 0. *)
Theorem init_iff_patterns_compile (document : list RawRule) :
  ((∃ T, __init__ document = Ok T) ↔ Forall compiles document)
  ∧ ∀ T, __init__ document = Ok T →
      length (rules T) = length document
      ∧ matches T = replicate (length document) 0%nat.
Proof.
  split.
  - rewrite <- (Forall_iff (λ raw, ∃ rule, compile_rule raw = Ok rule) document compiles)
      by (intros raw; apply compile_rule_ok).
    rewrite <- rmapM_ok. unfold __init__. split.
    + intros [T H]. destruct (rmapM compile_rule document) as [rs|]; [eauto|discriminate].
    + intros [rs ->]. simpl. eauto.
  - intros T Hinit. apply init_fields in Hinit as (Hrs & Hms & _ & _).
    apply rmapM_Forall2 in Hrs. apply Forall2_length in Hrs.
    rewrite Hms, Hrs. split; reflexivity.
Qed.

(** *** [GetUnmatchedRules] *)

Lemma unmatched_loop_fresh (rs : list Rule) (acc : list string) :
  unmatched_loop (zip rs (replicate (length rs) 0%nat)) acc = acc ++ (r_pretty <$> rs).
Proof.
  revert acc. induction rs as [|rule rs IH]; intros acc.
  - simpl. rewrite app_nil_r. reflexivity.
  - cbn [zip_with replicate length unmatched_loop Nat.eqb].
    rewrite IH, fmap_cons, <- app_assoc. reflexivity.
Qed.

Lemma pretty_of_doc (doc : list RawRule) (rs : list Rule) :
  Forall2 (λ raw rule, compile_rule raw = Ok rule) doc rs →
  r_pretty <$> rs = pformat <$> doc.
Proof.
  induction 1 as [|raw rule doc rs Hc _ IH]; [reflexivity|].
  rewrite !fmap_cons, (compile_rule_pretty _ _ Hc), IH. reflexivity.
Qed.

(** X7.  On a transformer that has processed nothing yet every rule is
    unmatched: [GetUnmatchedRules] returns the rendering of every rule of
    the document, in order, ([[]] for the empty document). *)
Theorem GetUnmatchedRules_fresh (document : list RawRule) T :
  __init__ document = Ok T →
  GetUnmatchedRules T = pformat <$> document.
Proof.
  intros Hinit. apply init_fields in Hinit as (Hrs & Hms & _ & _).
  unfold GetUnmatchedRules. rewrite Hms, unmatched_loop_fresh. simpl.
  apply pretty_of_doc, rmapM_Forall2. exact Hrs.
Qed.

Lemma grows_Forall2 (c c' : list nat) : grows c c' → Forall2 le c c'.
Proof.
  intros [Hl H]. apply Forall2_same_length_lookup. split; [congruence|].
  intros i x y Hx Hy. destruct (H _ _ Hx) as (m' & Hm' & Hle). congruence.
Qed.

Lemma zero_filter_sublist (rs : list Rule) (c c' : list nat) :
  Forall2 le c c' →
  sublist (filter (λ x : Rule * nat, x.2 = 0%nat) (zip rs c'))
          (filter (λ x : Rule * nat, x.2 = 0%nat) (zip rs c)).
Proof.
  intros H. revert rs. induction H as [|m m' c c' Hle _ IH]; intros rs.
  - destruct rs; reflexivity.
  - destruct rs as [|rule rs]; [reflexivity|]. cbn [zip zip_with].
    destruct m' as [|m'].
    + assert (m = 0%nat) as -> by lia.
      rewrite !filter_cons_True by reflexivity. apply sublist_skip, IH.
    + rewrite (filter_cons_False _ (rule, S m')) by (simpl; lia).
      destruct m as [|m].
      * rewrite filter_cons_True by reflexivity. apply sublist_cons, IH.
      * rewrite filter_cons_False by (simpl; lia). apply IH.
Qed.

Lemma unmatched_sublist (rs : list Rule) (c c' : list nat) :
  grows c c' →
  sublist (unmatched_loop (zip rs c') []) (unmatched_loop (zip rs c) []).
Proof.
  intros Hg. rewrite !unmatched_loop_filter. simpl.
  apply fmap_sublist, zero_filter_sublist, grows_Forall2, Hg.
Qed.

(** X8.  The list of unmatched rules only shrinks: what
    [GetUnmatchedRules] returns after a [Process] call is what it returned
    before with some entries left out, the others in the same order. *)
Theorem GetUnmatchedRules_shrinks T (pkg : Package) :
  sublist (GetUnmatchedRules (Process T pkg).1.1) (GetUnmatchedRules T).
Proof.
  unfold GetUnmatchedRules.
  destruct (Process_fixed T pkg) as (-> & _ & _).
  apply unmatched_sublist, Process_grows.
Qed.

(** *** Rules without some action *)

(** What holds of every rule holds of every rule in the packs. *)
Lemma packs_from_rules (document : list RawRule) T (P : Rule → Prop) :
  __init__ document = Ok T →
  (∀ rule, rule ∈ rules T → P rule) →
  Forall (λ pk : rulepack, Forall (λ ref : rule_ref, P ref.2) pk.2) (rulepacks T).
Proof.
  intros Hinit HP. pose proof (init_refs _ _ Hinit) as Hrefs.
  eapply Forall_impl; [exact Hrefs|]. intros pk Hpk. simpl.
  eapply Forall_impl; [exact Hpk|]. intros [i rule] Hp.
  unfold points_into in Hp. simpl in *. apply HP.
  eapply list_elem_of_lookup_2. exact Hp.
Qed.

(** A property of the state that every rule of the packs keeps, and that
    does not depend on the counters, is kept by the loops. *)
Lemma run_rules_keeps (Q : Rule → Prop) (I : string → Package → Prop)
    (rs : list rule_ref) st :
  (∀ rule n p flags n', Q rule → I n p →
     ApplyRule rule n (pkg_version p) = Ok (flags, n') →
     I n' (apply_flags flags p)) →
  Forall (λ ref : rule_ref, Q ref.2) rs →
  I (transformed_name st) (package st) →
  match (run_rules rs st).2 with
  | Return =>
      ∃ p, I (transformed_name (run_rules rs st).1) p
           ∧ package (run_rules rs st).1 = set_effname (transformed_name (run_rules rs st).1) p
  | _ => I (transformed_name (run_rules rs st).1) (package (run_rules rs st).1)
  end.
Proof.
  intros Hstep. revert st. induction rs as [|[i rule] rs IH]; intros st Hall HI; simpl.
  - exact HI.
  - inversion Hall as [|? ? Hq Hrest]; subst. simpl in Hq.
    destruct (MatchRule _ _ _ _ _); simpl; [|apply IH; assumption].
    destruct (ApplyRule _ _ _) as [[flags name']|e] eqn:Ha; [|exact HI].
    pose proof (Hstep _ _ _ _ _ Hq HI Ha) as HI'.
    destruct (flag_set flags MatchResult.lastrule); simpl; [eauto|].
    apply (IH (Build_pstate _ _ _)); assumption.
Qed.

Lemma run_packs_keeps (Q : Rule → Prop) (I : string → Package → Prop)
    (cell : gset string) (packs : list rulepack) st :
  (∀ rule n p flags n', Q rule → I n p →
     ApplyRule rule n (pkg_version p) = Ok (flags, n') →
     I n' (apply_flags flags p)) →
  Forall (λ pk : rulepack, Forall (λ ref : rule_ref, Q ref.2) pk.2) packs →
  I (transformed_name st) (package st) →
  match (run_packs cell packs st).2 with
  | Return =>
      ∃ p, I (transformed_name (run_packs cell packs st).1) p
           ∧ package (run_packs cell packs st).1
             = set_effname (transformed_name (run_packs cell packs st).1) p
  | _ => I (transformed_name (run_packs cell packs st).1)
           (package (run_packs cell packs st).1)
  end.
Proof.
  intros Hstep. revert st. induction packs as [|[pc rs] packs IH]; intros st Hall HI; simpl.
  - exact HI.
  - inversion Hall as [|? ? Hq Hrest]; subst. simpl in Hq.
    destruct (call cell pc _); simpl; [|apply IH; assumption].
    pose proof (run_rules_keeps Q I rs st Hstep Hq HI) as Hr.
    destruct (run_rules rs st) as [st' [| |e]]; simpl in *; [|assumption..].
    apply IH; assumption.
Qed.

Lemma run_rules_no_raise (rs : list rule_ref) st :
  Forall (λ ref : rule_ref, r_setname ref.2 = None) rs →
  ∀ e, (run_rules rs st).2 ≠ Raised e.
Proof.
  revert st. induction rs as [|[i rule] rs IH]; intros st Hall e; simpl; [discriminate|].
  inversion Hall as [|? ? Hq Hrest]; subst. simpl in Hq.
  destruct (MatchRule _ _ _ _ _); simpl; [|apply IH; assumption].
  rewrite ApplyRule_steps. unfold setname_step. rewrite Hq. simpl.
  destruct (flag_set _ MatchResult.lastrule); simpl; [discriminate|].
  apply IH; assumption.
Qed.

Lemma run_packs_no_raise (cell : gset string) (packs : list rulepack) st :
  Forall (λ pk : rulepack, Forall (λ ref : rule_ref, r_setname ref.2 = None) pk.2) packs →
  ∀ e, (run_packs cell packs st).2 ≠ Raised e.
Proof.
  revert st. induction packs as [|[pc rs] packs IH]; intros st Hall e; simpl; [discriminate|].
  inversion Hall as [|? ? Hq Hrest]; subst. simpl in Hq.
  destruct (call cell pc _); simpl; [|apply IH; assumption].
  pose proof (run_rules_no_raise rs st Hq) as Hr.
  destruct (run_rules rs st) as [st' [| |e']]; simpl in *;
    [apply IH; assumption|discriminate|exfalso; eapply Hr; reflexivity].
Qed.

(** X9.  Only [setname] can make [Process] raise: with a rule set in which
    no rule has a [setname], every call returns, whatever the package and
    whatever the other actions and the patterns of the rules. *)
Theorem Process_returns_without_setname (document : list RawRule) T (c : list nat)
    (pkg : Package) :
  __init__ document = Ok T →
  (∀ rule, rule ∈ rules T → r_setname rule = None) →
  (Process (with_counters T c) pkg).2 = Ok tt.
Proof.
  intros Hinit Hno.
  pose proof (packs_from_rules _ _ (λ rule, r_setname rule = None) Hinit Hno) as Hall.
  unfold Process. simpl.
  pose proof (run_packs_no_raise (names T) (rulepacks T) (start (with_counters T c) pkg) Hall)
    as Hr.
  destruct (run_packs (names T) (rulepacks T) (start (with_counters T c) pkg))
    as [st [| |e]]; simpl in *; [reflexivity..|].
  exfalso. eapply Hr. reflexivity.
Qed.

(** X10.  Rules without renaming actions do not rename: when no rule has
    [setname], [replaceinname] or [tolowername], [Process] returns with
    [effname] equal to the name of the package, whichever rules matched and
    whether or not a [last] rule ended the evaluation. *)
Theorem Process_keeps_name_without_renaming (document : list RawRule) T (c : list nat)
    (pkg : Package) :
  __init__ document = Ok T →
  (∀ rule, rule ∈ rules T →
     r_setname rule = None ∧ r_replaceinname rule = None ∧ r_tolowername rule = false) →
  (Process (with_counters T c) pkg).2 = Ok tt
  ∧ pkg_effname (Process (with_counters T c) pkg).1.2 = Some (pkg_name pkg).
Proof.
  intros Hinit Hno.
  pose proof (packs_from_rules _ _ _ Hinit Hno) as Hall.
  assert (Hs : Forall (λ pk : rulepack,
                  Forall (λ ref : rule_ref, r_setname ref.2 = None) pk.2) (rulepacks T)).
  { eapply Forall_impl; [exact Hall|]. intros pk Hpk.
    eapply Forall_impl; [exact Hpk|]. intros ref Href. apply Href. }
  pose proof (run_packs_no_raise (names T) (rulepacks T) (start (with_counters T c) pkg) Hs)
    as Hr.
  pose proof (run_packs_keeps
                (λ rule, r_setname rule = None ∧ r_replaceinname rule = None
                         ∧ r_tolowername rule = false)
                (λ n _, n = pkg_name pkg) (names T) (rulepacks T)
                (start (with_counters T c) pkg)) as Hk.
  simpl in Hk. specialize (Hk ltac:(
    intros rule n p flags n' (H1 & H2 & H3) -> Ha;
    rewrite ApplyRule_steps in Ha; unfold setname_step, replace_step, lower_step in Ha;
    rewrite H1, H2, H3 in Ha; simpl in Ha; congruence) Hall eq_refl).
  unfold Process. simpl.
  destruct (run_packs (names T) (rulepacks T) (start (with_counters T c) pkg))
    as [st [| |e]]; simpl in *.
  - rewrite Hk. split; reflexivity.
  - destruct Hk as (p & -> & ->). split; reflexivity.
  - exfalso. eapply Hr. reflexivity.
Qed.

(** X11.  [ignore] is only ever set by a rule that declares it: with a
    rule set in which no rule has [ignore], a package that was not ignored
    before [Process] is not ignored after it; the same for [ignorever] and
    [ignoreversion]. *)
Theorem ignore_needs_an_ignore_rule (document : list RawRule) T (c : list nat)
    (pkg : Package) :
  __init__ document = Ok T →
  ((∀ rule, rule ∈ rules T → r_ignore rule = false) →
   pkg_ignore pkg = false →
   pkg_ignore (Process (with_counters T c) pkg).1.2 = false)
  ∧ ((∀ rule, rule ∈ rules T → r_ignorever rule = false) →
     pkg_ignoreversion pkg = false →
     pkg_ignoreversion (Process (with_counters T c) pkg).1.2 = false).
Proof.
  intros Hinit. split; intros Hno Hp.
  - pose proof (packs_from_rules _ _ _ Hinit Hno) as Hall.
    pose proof (run_packs_keeps (λ rule, r_ignore rule = false)
                  (λ _ p, pkg_ignore p = false) (names T) (rulepacks T)
                  (start (with_counters T c) pkg)) as Hk.
    simpl in Hk. specialize (Hk ltac:(
      intros rule n p flags n' H1 Hi Ha;
      rewrite (ApplyRule_flags _ _ _ _ _ Ha);
      destruct (flag_set_flags_of rule) as (F1 & F2 & F3 & F4 & _);
      unfold apply_flags; rewrite F1, F2, F3, F4, H1;
      destruct (r_ignorever rule), (r_unignore rule), (r_unignorever rule);
      simpl; try reflexivity; exact Hi) Hall Hp).
    unfold Process. simpl.
    destruct (run_packs (names T) (rulepacks T) (start (with_counters T c) pkg))
      as [st [| |e]]; simpl in *; try exact Hk.
    destruct Hk as (p & Hi & ->). exact Hi.
  - pose proof (packs_from_rules _ _ _ Hinit Hno) as Hall.
    pose proof (run_packs_keeps (λ rule, r_ignorever rule = false)
                  (λ _ p, pkg_ignoreversion p = false) (names T)
                  (rulepacks T) (start (with_counters T c) pkg)) as Hk.
    simpl in Hk. specialize (Hk ltac:(
      intros rule n p flags n' H1 Hi Ha;
      rewrite (ApplyRule_flags _ _ _ _ _ Ha);
      destruct (flag_set_flags_of rule) as (F1 & F2 & F3 & F4 & _);
      unfold apply_flags; rewrite F1, F2, F3, F4, H1;
      destruct (r_ignore rule), (r_unignore rule), (r_unignorever rule);
      simpl; try reflexivity; exact Hi) Hall Hp).
    unfold Process. simpl.
    destruct (run_packs (names T) (rulepacks T) (start (with_counters T c) pkg))
      as [st [| |e]]; simpl in *; try exact Hk.
    destruct Hk as (p & Hi & ->). exact Hi.
Qed.

(** *** [ApplyRule] *)

Lemma dollarN_sub_no_dollar (f : string → result (option string)) (template : string) :
  no_dollar template = true → Template.dollarN_sub f O template = Ok template.
Proof.
  induction template as [|c t IH]; simpl; [reflexivity|].
  intros H. apply andb_true_iff in H as [Hc Ht].
  apply negb_true_iff in Hc. rewrite Hc. simpl. rewrite (IH Ht). reflexivity.
Qed.

Lemma replace_go_no_dollar (new template : string) :
  no_dollar template = true → PyStr.replace_go "$0" new O template = template.
Proof.
  induction template as [|c t IH]; [reflexivity|].
  cbn [no_dollar PyStr.replace_go PyStr.startswith].
  intros H. apply andb_true_iff in H as [Hc Ht].
  apply negb_true_iff in Hc. rewrite (Ascii.eqb_sym "$" c), Hc. rewrite (IH Ht).
  reflexivity.
Qed.

(** X13.  A [setname] without any [$] is a constant: when the pattern of
    the rule matches the current name, or the name has no backslash, the
    name is replaced by the template as it stands before [replaceinname]
    and [tolowername] go on, so the old name leaves no trace in the new
    one. *)
Theorem constant_setname rule (template pkgname pkgversion : string) :
  r_setname rule = Some template →
  no_dollar template = true →
  is_Some (r_namepat rule ≫= (λ p, re_match p pkgname))
  ∨ Template.has_backslash pkgname = false →
  ApplyRule rule pkgname pkgversion
  = Ok (flags_of rule, lower_step rule (replace_step rule template)).
Proof.
  intros Hs Hd Hcase. rewrite ApplyRule_steps. unfold setname_step. rewrite Hs.
  destruct (r_namepat rule ≫= (λ p, re_match p pkgname)) as [m|] eqn:Hm.
  - rewrite dollarN_sub_no_dollar by assumption. reflexivity.
  - destruct Hcase as [[m Hm']|Hb]; [discriminate|].
    rewrite dollar0_sub_plain by assumption. unfold literal_dollar0, PyStr.replace.
    rewrite replace_go_no_dollar by assumption. reflexivity.
Qed.

(** *** The packs [__init__] builds *)

Lemma add_names_fields (ref : rule_ref) (l : list string) (k : packer) :
  (∀ n, n ∈ pk_names (add_names ref l k) ↔ n ∈ pk_names k ∨ n ∈ l)
  ∧ pk_pack (add_names ref l k) = pk_pack k ++ replicate (length l) ref
  ∧ pk_rulepacks (add_names ref l k) = pk_rulepacks k.
Proof.
  revert k. induction l as [|name l IH]; intros k; simpl.
  - split; [|split; [rewrite app_nil_r|]; reflexivity].
    intros n. rewrite elem_of_nil. tauto.
  - destruct (IH {| pk_names := pk_names k ∪ {[name]}; pk_pack := pk_pack k ++ [ref];
                    pk_rulepacks := pk_rulepacks k |}) as (Hn & Hp & Hr).
    simpl in *. split; [|split].
    + intros n. rewrite Hn, elem_of_union, elem_of_singleton, elem_of_cons. tauto.
    + rewrite Hp, <- app_assoc. reflexivity.
    + exact Hr.
Qed.

Lemma names_empty_iff (X : gset string) : X = ∅ ↔ ∀ n, n ∉ X.
Proof. set_solver. Qed.

Lemma flush_shapes (k : packer) :
  packer_shapes k → Forall pack_shape (flush k).
Proof.
  intros (Hr & Hp & He). unfold flush. case_bool_decide as Hn; [|assumption].
  apply Forall_app. split; [assumption|]. constructor; [|constructor].
  split; simpl; [|assumption]. intros Hnil. apply Hn, He, Hnil.
Qed.

Lemma pack_step_shapes (k : packer) (ref : rule_ref) :
  packer_shapes k → packer_shapes (pack_step k ref).
Proof.
  intros Hk. unfold pack_step. destruct (r_name ref.2) as [l|] eqn:Hl.
  - destruct Hk as (Hr & Hp & He).
    destruct (add_names_fields ref l k) as (Hn' & Hp' & Hr').
    split; [|split].
    + rewrite Hr'. assumption.
    + rewrite Hp'. apply Forall_app. split; [assumption|].
      apply Forall_replicate. unfold named. rewrite Hl. eauto.
    + rewrite Hp'. intros Hnil. apply app_eq_nil in Hnil as [Hnil Hrep].
      apply names_empty_iff. intros n. rewrite Hn'. intros [Hin|Hin].
      * rewrite (He Hnil) in Hin. set_solver.
      * destruct l; [set_solver|discriminate].
  - split; [|split]; simpl; [|constructor|reflexivity].
    apply Forall_app. split; [apply flush_shapes; assumption|].
    constructor; [|constructor]. exists ref. split; [reflexivity|exact Hl].
Qed.

Lemma foldl_pack_step_shapes (l : list rule_ref) (k : packer) :
  packer_shapes k → packer_shapes (foldl pack_step k l).
Proof.
  revert k. induction l as [|ref l IH]; intros k Hk; simpl; [assumption|].
  apply IH, pack_step_shapes, Hk.
Qed.

(** X14.  The shape of the packs: a pack guarded by [lambda name: True]
    holds exactly one rule, and that rule has no [name]; a pack guarded by
    the test on [names] is not empty and holds only rules with a [name]. *)
Theorem packs_have_shape (document : list RawRule) T :
  __init__ document = Ok T → Forall pack_shape (rulepacks T).
Proof.
  intros Hinit. apply init_fields in Hinit as (_ & _ & -> & _).
  apply flush_shapes. unfold pack_rules. apply foldl_pack_step_shapes.
  split; [constructor|split; [constructor|reflexivity]].
Qed.

Lemma bind_single {A B} (f : A → list B) (x : A) : [x] ≫= f = f x.
Proof. rewrite bind_cons. apply app_nil_r. Qed.

Lemma flush_copies (k : packer) (done : list rule_ref) :
  packer_copies k done →
  concat (snd <$> flush k) = done ≫= (λ ref, replicate (copies ref) ref).
Proof.
  intros [Hc He]. unfold flush. case_bool_decide as Hn.
  - rewrite fmap_app, concat_app. simpl. rewrite app_nil_r. exact Hc.
  - assert (Hn' : pk_names k = ∅) by (destruct (decide (pk_names k = ∅)); tauto).
    rewrite (He Hn'), app_nil_r in Hc. exact Hc.
Qed.

Lemma pack_step_copies (k : packer) (done : list rule_ref) (ref : rule_ref) :
  packer_copies k done → packer_copies (pack_step k ref) (done ++ [ref]).
Proof.
  intros Hk. unfold pack_step, packer_copies. rewrite bind_app, bind_single.
  destruct (r_name ref.2) as [l|] eqn:Hl.
  - assert (copies ref = length l) as -> by (unfold copies; rewrite Hl; reflexivity).
    destruct Hk as [Hc He].
    destruct (add_names_fields ref l k) as (Hn' & Hp' & Hr').
    rewrite Hr', Hp'. split.
    + rewrite app_assoc, Hc. reflexivity.
    + intros Hempty. assert (Hk0 : pk_names k = ∅).
      { apply names_empty_iff. intros n Hin.
        assert (n ∈ pk_names (add_names ref l k)) as Hin' by (apply Hn'; tauto).
        rewrite Hempty in Hin'. set_solver. }
      destruct l as [|name l].
      * simpl. rewrite app_nil_r. apply He, Hk0.
      * exfalso. assert (name ∈ pk_names (add_names ref (name :: l) k)) as Hin'
          by (apply Hn'; right; apply list_elem_of_here).
        rewrite Hempty in Hin'. set_solver.
  - assert (copies ref = 1%nat) as -> by (unfold copies; rewrite Hl; reflexivity).
    split; simpl; [|reflexivity].
    rewrite fmap_app, concat_app, (flush_copies _ _ Hk). simpl.
    rewrite !app_nil_r. reflexivity.
Qed.

Lemma foldl_pack_step_copies (l : list rule_ref) (k : packer) (done : list rule_ref) :
  packer_copies k done → packer_copies (foldl pack_step k l) (done ++ l).
Proof.
  revert k done. induction l as [|ref l IH]; intros k done Hk; simpl.
  - rewrite app_nil_r. assumption.
  - replace (done ++ ref :: l) with ((done ++ [ref]) ++ l)
      by (rewrite <- app_assoc; reflexivity).
    apply IH, pack_step_copies, Hk.
Qed.

(** X15.  What the packs hold, one pack after the other: the rules in the
    order of the document, each rule as many times in a row as it has
    names (once when it has no [name], not at all when its list of names is
    empty).  No rule comes before a rule that precedes it in the
    document. *)
Theorem packs_hold_rules_once_per_name (document : list RawRule) T :
  __init__ document = Ok T →
  packed_rules T = all_rules T ≫= (λ ref, replicate (copies ref) ref).
Proof.
  intros Hinit. unfold packed_rules.
  apply init_fields in Hinit as (_ & _ & -> & _).
  apply flush_copies. unfold pack_rules.
  apply (foldl_pack_step_copies _ _ []). split; reflexivity.
Qed.

(** *** The set the preconditions test *)

Lemma pack_step_nameless_names (k : packer) (ref : rule_ref) :
  nameless ref → pk_names (pack_step k ref) = ∅.
Proof. intros Hn. unfold pack_step. rewrite Hn. reflexivity. Qed.

Lemma foldl_pack_step_named_names (l : list rule_ref) (k : packer) :
  Forall named l →
  ∀ n, n ∈ pk_names (foldl pack_step k l)
       ↔ n ∈ pk_names k ∨ ∃ ref li, ref ∈ l ∧ r_name ref.2 = Some li ∧ n ∈ li.
Proof.
  revert k. induction l as [|ref l IH]; intros k Hall n; simpl.
  - split; [tauto|]. intros [H|(ref & li & Hin & _)]; [exact H|].
    apply elem_of_nil in Hin. contradiction.
  - inversion Hall as [|? ? [li Hli] Hrest]; subst.
    rewrite (IH _ Hrest). unfold pack_step at 1. rewrite Hli.
    destruct (add_names_fields ref li k) as (Hn & _ & _). rewrite Hn. split.
    + intros [[H|H]|(ref' & li' & Hin & Hr & Hm)]; [tauto| |].
      * right. exists ref, li. split; [apply list_elem_of_here|tauto].
      * right. exists ref', li'. split; [apply list_elem_of_further, Hin|tauto].
    + intros [H|(ref' & li' & Hin & Hr & Hm)]; [tauto|].
      apply elem_of_cons in Hin as [->|Hin].
      * left. right. congruence.
      * right. exists ref', li'. tauto.
Qed.

Lemma names_of_refs (g : nat → nat) (run : list Rule) (n : string) :
  (∃ ref li, ref ∈ imap (λ i r, (g i, r)) run ∧ r_name ref.2 = Some li ∧ n ∈ li)
  ↔ names_of run n.
Proof.
  unfold names_of. split.
  - intros (ref & li & Hin & Hr & Hm).
    apply elem_of_lookup_imap in Hin as (i & rule & -> & Hi).
    exists rule, li. split; [eapply list_elem_of_lookup_2, Hi|tauto].
  - intros (rule & li & Hin & Hr & Hm).
    apply list_elem_of_lookup_1 in Hin as [i Hi].
    exists (g i, rule), li. split; [|tauto].
    apply (elem_of_lookup_imap_2 (λ i r, (g i, r)) run rule i Hi).
Qed.

Lemma refs_named (g : nat → nat) (run : list Rule) :
  Forall (λ rule, is_Some (r_name rule)) run →
  Forall named (imap (λ i r, (g i, r)) run).
Proof.
  intros Hall. apply Forall_forall. intros ref Hin.
  apply elem_of_lookup_imap in Hin as (i & rule & -> & Hi).
  rewrite Forall_forall in Hall. apply Hall. eapply list_elem_of_lookup_2, Hi.
Qed.

Lemma names_after_prefix (pre : list Rule) :
  pre = [] ∨ (∃ pre' r, pre = pre' ++ [r] ∧ r_name r = None) →
  pk_names (pack_rules pre) = ∅.
Proof.
  unfold pack_rules. intros [->|(pre' & r & -> & Hr)]; [reflexivity|].
  rewrite imap_app, foldl_app. simpl. apply pack_step_nameless_names. exact Hr.
Qed.

Lemma names_cell_split (pre run : list Rule) (n : string) :
  pre = [] ∨ (∃ pre' r, pre = pre' ++ [r] ∧ r_name r = None) →
  Forall (λ rule, is_Some (r_name rule)) run →
  n ∈ pk_names (pack_rules (pre ++ run)) ↔ names_of run n.
Proof.
  intros Hpre Hrun. pose proof (names_after_prefix pre Hpre) as Hempty.
  unfold pack_rules in *. rewrite imap_app, foldl_app.
  rewrite foldl_pack_step_named_names by (apply refs_named; exact Hrun).
  rewrite Hempty, names_of_refs. split; [|tauto].
  intros [Hin|Hin]; [|exact Hin]. apply elem_of_empty in Hin. contradiction.
Qed.

(** X16.  The set that every pack precondition tests is the set of the
    names of the rules that come after the last rule without [name]: the
    closures read the variable [names] when they are called, and that is
    how the constructor leaves it.  When the document ends with a rule
    without [name] the set is empty. *)
Theorem names_cell_is_the_last_run (document : list RawRule) T (pre run : list Rule)
    (n : string) :
  __init__ document = Ok T →
  rules T = pre ++ run →
  pre = [] ∨ (∃ pre' r, pre = pre' ++ [r] ∧ r_name r = None) →
  Forall (λ rule, is_Some (r_name rule)) run →
  n ∈ names T ↔ names_of run n.
Proof.
  intros Hinit Hsplit Hpre Hrun.
  apply init_fields in Hinit as (_ & _ & _ & ->). rewrite Hsplit.
  apply names_cell_split; assumption.
Qed.

(** *** Evaluation when [names] is empty *)

Lemma always_rules_app (a b : list rulepack) :
  always_rules (a ++ b) = always_rules a ++ always_rules b.
Proof.
  induction a as [|[[] rs] a IH]; simpl; [reflexivity|exact IH|].
  rewrite IH, app_assoc. reflexivity.
Qed.

Lemma flush_always (k : packer) : always_rules (flush k) = always_rules (pk_rulepacks k).
Proof.
  unfold flush. case_bool_decide; [|reflexivity].
  rewrite always_rules_app. simpl. apply app_nil_r.
Qed.

Lemma pack_step_always (k : packer) (done : list rule_ref) (ref : rule_ref) :
  packer_always k done → packer_always (pack_step k ref) (done ++ [ref]).
Proof.
  unfold packer_always, pack_step. intros Hk. rewrite filter_app.
  destruct (r_name ref.2) as [l|] eqn:Hl.
  - destruct (add_names_fields ref l k) as (_ & _ & ->).
    rewrite filter_cons_False by (unfold nameless; rewrite Hl; discriminate).
    rewrite filter_nil, app_nil_r. exact Hk.
  - simpl. rewrite always_rules_app, flush_always, Hk. simpl.
    rewrite filter_cons_True by exact Hl. reflexivity.
Qed.

Lemma foldl_pack_step_always (l : list rule_ref) (k : packer) (done : list rule_ref) :
  packer_always k done → packer_always (foldl pack_step k l) (done ++ l).
Proof.
  revert k done. induction l as [|ref l IH]; intros k done Hk; simpl.
  - rewrite app_nil_r. assumption.
  - replace (done ++ ref :: l) with ((done ++ [ref]) ++ l)
      by (rewrite <- app_assoc; reflexivity).
    apply IH, pack_step_always, Hk.
Qed.

Lemma init_always (document : list RawRule) T :
  __init__ document = Ok T →
  always_rules (rulepacks T) = filter nameless (all_rules T).
Proof.
  intros Hinit. apply init_fields in Hinit as (_ & _ & -> & _).
  rewrite flush_always. unfold pack_rules.
  apply (foldl_pack_step_always _ _ []). reflexivity.
Qed.

Lemma run_packs_empty_cell (packs : list rulepack) st :
  run_packs ∅ packs st = run_rules (always_rules packs) st.
Proof.
  revert st. induction packs as [|[[] rs] packs IH]; intros st; simpl.
  - reflexivity.
  - apply IH.
  - rewrite run_rules_app.
    destruct (run_rules rs st) as [st' [| |e]]; [apply IH|reflexivity..].
Qed.

Lemma Process_empty_cell (document : list RawRule) T (c : list nat) (pkg : Package) :
  __init__ document = Ok T →
  names T = ∅ →
  Process (with_counters T c) pkg
  = Process_over (filter nameless (all_rules T)) (with_counters T c) pkg.
Proof.
  intros Hinit Hempty. unfold Process, Process_over. simpl.
  rewrite Hempty, run_packs_empty_cell, (init_always _ _ Hinit). reflexivity.
Qed.

(** X17.  After a document that ends with a rule without [name], no rule
    with a [name] is ever evaluated: [names] is empty when the
    preconditions are called, every pack of rules with names is skipped,
    and [Process] is the evaluation, in order, of the rules without [name]
    alone. *)
Theorem named_rules_dead_after_nameless_last (document : list RawRule) T (c : list nat)
    (pkg : Package) (r : Rule) :
  __init__ document = Ok T →
  last (rules T) = Some r →
  r_name r = None →
  Process (with_counters T c) pkg
  = Process_over (filter nameless (all_rules T)) (with_counters T c) pkg.
Proof.
  intros Hinit Hlast Hr. apply (Process_empty_cell _ _ _ _ Hinit).
  apply last_Some in Hlast as [pre' Hpre].
  pose proof Hinit as Hf. apply init_fields in Hf as (_ & _ & _ & ->).
  apply names_after_prefix. right. eauto.
Qed.

Lemma filter_all {A} (P : A → Prop) `{∀ x, Decision (P x)} (l : list A) :
  Forall P l → filter P l = l.
Proof.
  induction 1 as [|x l Hx _ IH]; [reflexivity|].
  rewrite filter_cons_True by exact Hx. rewrite IH. reflexivity.
Qed.

Lemma names_all_nameless (l : list rule_ref) (k : packer) :
  Forall nameless l → pk_names k = ∅ → pk_names (foldl pack_step k l) = ∅.
Proof.
  revert k. induction l as [|ref l IH]; intros k Hall Hk; simpl; [exact Hk|].
  inversion Hall; subst. apply IH; [assumption|].
  apply pack_step_nameless_names. assumption.
Qed.

(** X18.  For a rule set in which no rule has a [name] the packs change
    nothing: [Process] gives the same package, the same counters and the
    same outcome as the evaluation of every rule in the order of the
    document. *)
Theorem packs_are_neutral_without_names (document : list RawRule) T (c : list nat)
    (pkg : Package) :
  __init__ document = Ok T →
  (∀ rule, rule ∈ rules T → r_name rule = None) →
  Process (with_counters T c) pkg = Process_unpacked (with_counters T c) pkg.
Proof.
  intros Hinit Hno.
  assert (Hall : Forall nameless (all_rules T)).
  { apply Forall_forall. intros ref Hin.
    apply elem_of_lookup_imap in Hin as (i & rule & -> & Hi).
    apply Hno. eapply list_elem_of_lookup_2, Hi. }
  rewrite (Process_empty_cell _ _ _ _ Hinit).
  - rewrite (filter_all _ _ Hall). reflexivity.
  - pose proof Hinit as Hf. apply init_fields in Hf as (_ & _ & _ & ->).
    unfold pack_rules. apply names_all_nameless; [exact Hall|reflexivity].
Qed.

(** *** How far a counter moves in one call *)

Lemma occurrences_cons (j : nat) (ref : rule_ref) (rs : list rule_ref) :
  occurrences j (ref :: rs)
  = ((if decide (ref.1 = j) then 1 else 0) + occurrences j rs)%nat.
Proof.
  unfold occurrences. destruct (decide (ref.1 = j)) as [He|Hne].
  - rewrite filter_cons_True by exact He. reflexivity.
  - rewrite filter_cons_False by exact Hne. reflexivity.
Qed.

Lemma occurrences_app (j : nat) (a b : list rule_ref) :
  occurrences j (a ++ b) = (occurrences j a + occurrences j b)%nat.
Proof. unfold occurrences. rewrite filter_app, length_app. reflexivity. Qed.

Lemma occurrences_replicate (j n : nat) (ref : rule_ref) :
  occurrences j (replicate n ref) = if decide (ref.1 = j) then n else 0%nat.
Proof.
  induction n as [|n IH]; simpl.
  - destruct (decide (ref.1 = j)); reflexivity.
  - rewrite occurrences_cons, IH. destruct (decide (ref.1 = j)); reflexivity.
Qed.

Lemma run_rules_bound (rs : list rule_ref) st (j m m' : nat) :
  counters st !! j = Some m →
  counters (run_rules rs st).1 !! j = Some m' →
  (m' ≤ m + occurrences j rs)%nat.
Proof.
  revert st m. induction rs as [|[i rule] rs IH]; intros st m Hm Hm'.
  - simpl in Hm'. assert (m' = m) by congruence. lia.
  - rewrite occurrences_cons. simpl in *.
    destruct (MatchRule _ _ _ _ _); simpl in Hm'.
    2:{ specialize (IH st m Hm Hm'). lia. }
    assert (Hbump : ∃ m1, alter S i (counters st) !! j = Some m1
                          ∧ (m1 ≤ m + (if decide (i = j) then 1 else 0))%nat).
    { destruct (decide (i = j)) as [->|Hne].
      - exists (S m). rewrite list_lookup_alter_eq, Hm. split; [reflexivity|lia].
      - exists m. rewrite list_lookup_alter_ne by exact Hne. split; [exact Hm|lia]. }
    destruct Hbump as (m1 & Hm1 & Hle).
    destruct (ApplyRule _ _ _) as [[flags name']|e]; simpl in Hm'.
    2:{ assert (m' = m1) by congruence. lia. }
    destruct (flag_set flags MatchResult.lastrule); simpl in Hm'.
    { assert (m' = m1) by congruence. lia. }
    specialize (IH (Build_pstate _ _ _) m1 Hm1 Hm'). lia.
Qed.

Lemma run_packs_bound (cell : gset string) (packs : list rulepack) st (j m m' : nat) :
  counters st !! j = Some m →
  counters (run_packs cell packs st).1 !! j = Some m' →
  (m' ≤ m + occurrences j (concat (snd <$> packs)))%nat.
Proof.
  revert st m. induction packs as [|[pc rs] packs IH]; intros st m Hm Hm'.
  - simpl in Hm'. assert (m' = m) by congruence. lia.
  - rewrite fmap_cons, concat_cons, occurrences_app. simpl in *.
    destruct (call cell pc _); simpl in Hm'.
    2:{ specialize (IH st m Hm Hm'). lia. }
    destruct (run_rules_grows rs st) as [_ Hg].
    destruct (Hg _ _ Hm) as (m1 & Hm1 & _).
    pose proof (run_rules_bound rs st j m m1 Hm Hm1) as Hb.
    destruct (run_rules rs st) as [st' [| |e]]; simpl in *.
    + specialize (IH st' m1 Hm1 Hm'). lia.
    + assert (m' = m1) by congruence. lia.
    + assert (m' = m1) by congruence. lia.
Qed.

Lemma occurrences_all_rules (j : nat) (rs : list Rule) (off : nat) :
  occurrences j (imap (λ i r, ((off + i)%nat, r)) rs ≫= (λ ref, replicate (copies ref) ref))
  = if decide (off ≤ j)%nat
    then from_option (λ rule, copies (j, rule)) 0%nat (rs !! (j - off)%nat)
    else 0%nat.
Proof.
  revert off. induction rs as [|x rs IH]; intros off.
  - simpl. destruct (decide (off ≤ j)%nat); reflexivity.
  - rewrite imap_cons, bind_cons, occurrences_app, occurrences_replicate.
    rewrite (imap_ext _ (λ i r, ((S off + i)%nat, r))) by (intros; simpl; f_equal; lia).
    rewrite IH. simpl.
    destruct (decide ((off + 0)%nat = j)) as [He|Hne].
    + destruct (decide (S off ≤ j)%nat); [lia|].
      destruct (decide (off ≤ j)%nat); [|lia].
      replace (j - off)%nat with 0%nat by lia. simpl. unfold copies. simpl. lia.
    + destruct (decide (S off ≤ j)%nat), (decide (off ≤ j)%nat); try lia.
      replace (j - off)%nat with (S (j - S off)) by lia. reflexivity.
Qed.

(** X19.  One call counts a rule at most once for each of its names: the
    counter of a rule goes up, in one [Process] call, by at most the number
    of names of the rule, by at most one for a rule without [name], and not
    at all for a rule whose list of names is empty. *)
Theorem counter_moves_at_most_once_per_name (document : list RawRule) T (c : list nat)
    (pkg : Package) (j : nat) (rule : Rule) (m m' : nat) :
  __init__ document = Ok T →
  rules T !! j = Some rule →
  c !! j = Some m →
  matches (Process (with_counters T c) pkg).1.1 !! j = Some m' →
  (m ≤ m' ≤ m + copies (j, rule))%nat.
Proof.
  intros Hinit Hrule Hm Hm'. split.
  - destruct (Process_grows (with_counters T c) pkg) as [_ Hg].
    destruct (Hg _ _ Hm) as (m1 & Hm1 & Hle). simpl in *. congruence.
  - rewrite Process_counters in Hm'. simpl in Hm'.
    pose proof (run_packs_bound (names T) (rulepacks T) (start (with_counters T c) pkg)
                  j m m' Hm Hm') as Hb.
    apply init_fields in Hinit as (_ & _ & Hpacks & _).
    rewrite Hpacks in Hb.
    rewrite (flush_copies _ (all_rules T)) in Hb
      by (unfold pack_rules; apply (foldl_pack_step_copies _ _ []); split; reflexivity).
    unfold all_rules in Hb.
    rewrite (imap_ext _ (λ i r, ((0 + i)%nat, r))) in Hb by reflexivity.
    rewrite occurrences_all_rules in Hb.
    destruct (decide (0 ≤ j)%nat); [|lia].
    replace (j - 0)%nat with j in Hb by lia. rewrite Hrule in Hb. exact Hb.
Qed.

(** *** Where skipping a pack is sound *)

Lemma MatchRule_name rule (n v c f : string) (l : list string) :
  MatchRule rule n v c f = true → r_name rule = Some l → n ∈ l.
Proof.
  unfold MatchRule. intros H Hl.
  destruct (not_in (r_family rule) f); [discriminate|].
  destruct (not_in (r_category rule) c); [discriminate|].
  destruct (not_in (r_name rule) n) eqn:Hn; [discriminate|].
  apply (proj1 (not_in_false _ _) Hn). exact Hl.
Qed.

Lemma MatchRule_namepat rule (n v c f : string) (p : pattern) :
  MatchRule rule n v c f = true → r_namepat rule = Some p → is_Some (re_match p n).
Proof.
  unfold MatchRule. intros H Hp.
  destruct (not_in (r_family rule) f); [discriminate|].
  destruct (not_in (r_category rule) c); [discriminate|].
  destruct (not_in (r_name rule) n); [discriminate|].
  destruct (not_matching (r_namepat rule) n) eqn:Hn; [discriminate|].
  apply (proj1 (not_matching_false _ _) Hn). exact Hp.
Qed.

(** X20.  Skipping the last pack is sound: a rule that comes after the
    last rule without [name] can only match a package whose current name is
    in the set the preconditions test, so when the precondition of its pack
    is false the pack holds no rule that would have matched. *)
Theorem last_pack_skips_no_match (document : list RawRule) T (pre run : list Rule)
    (rule : Rule) (n v c f : string) :
  __init__ document = Ok T →
  rules T = pre ++ run →
  pre = [] ∨ (∃ pre' r, pre = pre' ++ [r] ∧ r_name r = None) →
  Forall (λ rule, is_Some (r_name rule)) run →
  rule ∈ run →
  MatchRule rule n v c f = true →
  n ∈ names T.
Proof.
  intros Hinit Hsplit Hpre Hrun Hin Hm.
  apply init_fields in Hinit as (_ & _ & _ & ->). rewrite Hsplit.
  apply names_cell_split; [assumption..|].
  rewrite Forall_forall in Hrun. destruct (Hrun _ Hin) as [l Hl].
  exists rule, l. split; [exact Hin|]. split; [exact Hl|].
  eapply MatchRule_name; eassumption.
Qed.

(** X21.  Inside [Process] the fallback of [ApplyRule] is never taken for
    a rule with a [namepat]: the rule was matched on the same name, so the
    pattern matches again and the template is filled from the groups of
    that match.  The name of the package is then never read as a
    replacement template, and a backslash in it does no harm. *)
Theorem namepat_rules_use_groups rule (p : pattern) (template n v c f : string) :
  MatchRule rule n v c f = true →
  r_namepat rule = Some p →
  r_setname rule = Some template →
  ∃ m, re_match p n = Some m
       ∧ ApplyRule rule n v
         = (let* n1 := Template.dollarN_sub (λ ds, group m (Template.int_of ds)) O template in
            Ok (flags_of rule, lower_step rule (replace_step rule n1))).
Proof.
  intros Hm Hp Hs. destruct (MatchRule_namepat _ _ _ _ _ _ Hm Hp) as [m Hmatch].
  exists m. split; [exact Hmatch|].
  rewrite ApplyRule_steps. unfold setname_step. rewrite Hs, Hp. simpl.
  rewrite Hmatch. reflexivity.
Qed.

(** *** Documents for which the packs are an optimization *)

Lemma refs_from_app (off : nat) (a b : list Rule) :
  refs_from off (a ++ b) = refs_from off a ++ refs_from (off + length a) b.
Proof.
  unfold refs_from. rewrite imap_app. f_equal.
  apply imap_ext. intros i x _. simpl. f_equal. lia.
Qed.

Lemma refs_from_elem (off : nat) (rs : list Rule) (ref : rule_ref) :
  ref ∈ refs_from off rs → ref.2 ∈ rs.
Proof.
  intros Hin. apply elem_of_lookup_imap in Hin as (i & rule & -> & Hi).
  eapply list_elem_of_lookup_2, Hi.
Qed.

Lemma foldl_nameless_packer (l : list rule_ref) (k : packer) :
  Forall nameless l → pk_names k = ∅ → pk_pack k = [] →
  pk_names (foldl pack_step k l) = ∅
  ∧ pk_pack (foldl pack_step k l) = []
  ∧ pk_rulepacks (foldl pack_step k l) = pk_rulepacks k ++ singleton_packs l.
Proof.
  revert k. induction l as [|ref l IH]; intros k Hall Hn Hp; simpl.
  - rewrite app_nil_r. tauto.
  - inversion Hall as [|? ? Href Hrest]; subst.
    destruct (IH (pack_step k ref) Hrest) as (H1 & H2 & H3).
    + apply pack_step_nameless_names, Href.
    + unfold pack_step. rewrite Href. reflexivity.
    + split; [exact H1|]. split; [exact H2|]. rewrite H3.
      unfold pack_step. rewrite Href. simpl. unfold flush.
      rewrite bool_decide_eq_false_2 by (intros Hne; apply Hne, Hn).
      rewrite <- app_assoc. reflexivity.
Qed.

Lemma foldl_one_name_packer (l : list rule_ref) (k : packer) :
  Forall (λ ref : rule_ref, one_name ref.2) l →
  pk_pack (foldl pack_step k l) = pk_pack k ++ l
  ∧ pk_rulepacks (foldl pack_step k l) = pk_rulepacks k
  ∧ (l ≠ [] → pk_names (foldl pack_step k l) ≠ ∅).
Proof.
  revert k. induction l as [|ref l IH]; intros k Hall; simpl.
  - rewrite app_nil_r. tauto.
  - inversion Hall as [|? ? [name Hname] Hrest]; subst.
    destruct (IH (pack_step k ref) Hrest) as (H1 & H2 & H3).
    assert (Hstep : pack_step k ref
                    = {| pk_names := pk_names k ∪ {[name]}; pk_pack := pk_pack k ++ [ref];
                         pk_rulepacks := pk_rulepacks k |}).
    { unfold pack_step. rewrite Hname. reflexivity. }
    rewrite H1, H2.
    split; [rewrite Hstep; simpl; rewrite <- app_assoc; reflexivity|].
    split; [rewrite Hstep; reflexivity|]. intros _ Hempty.
    assert (Hin : name ∈ pk_names (foldl pack_step (pack_step k ref) l)).
    { apply foldl_pack_step_named_names.
      - eapply Forall_impl; [exact Hrest|]. intros r [nm Hr]. unfold named.
        rewrite Hr. eauto.
      - left. rewrite Hstep. simpl. apply elem_of_union_r, elem_of_singleton. reflexivity. }
    rewrite Hempty in Hin. apply elem_of_empty in Hin. exact Hin.
Qed.

Lemma run_singleton_packs (cell : gset string) (l : list rule_ref) (rest : list rulepack) st :
  run_packs cell (singleton_packs l ++ rest) st =
  match run_rules l st with
  | (st', Next) => run_packs cell rest st'
  | other => other
  end.
Proof.
  revert st. induction l as [|[i rule] l IH]; intros st; [reflexivity|].
  cbn [singleton_packs fmap list_fmap app run_packs call negb].
  pose proof (run_rules_app (@cons rule_ref (i, rule) (@nil rule_ref)) l st) as Happ.
  cbn [app] in Happ. rewrite Happ.
  destruct (run_rules (@cons rule_ref (i, rule) (@nil rule_ref)) st) as [st' [| |e]];
    [apply IH|reflexivity..].
Qed.

(** X22.  The documents for which the packs are the optimization they are
    meant to be: when the rules without [name] all come first and the
    rules after them have exactly one name each, [Process] gives the same
    package, the same counters and the same outcome as the evaluation of
    every rule in the order of the document. *)
Theorem packs_are_neutral_for_sorted_documents (document : list RawRule) T
    (pre run : list Rule) (c : list nat) (pkg : Package) :
  __init__ document = Ok T →
  rules T = pre ++ run →
  Forall (λ rule, r_name rule = None) pre →
  Forall one_name run →
  Process (with_counters T c) pkg = Process_unpacked (with_counters T c) pkg.
Proof.
  intros Hinit Hsplit Hpre Hrun.
  pose proof Hinit as Hf. apply init_fields in Hf as (_ & _ & Hpacks & Hnames).
  set (k0 := {| pk_names := ∅; pk_pack := []; pk_rulepacks := [] |}) in *.
  assert (Hrefs : imap (λ i r, (i, r)) (rules T) = refs_from 0 pre ++ refs_from (length pre) run).
  { rewrite Hsplit. exact (refs_from_app 0 pre run). }
  assert (Hpre' : Forall nameless (refs_from 0 pre)).
  { apply Forall_forall. intros ref Hin. apply refs_from_elem in Hin.
    rewrite Forall_forall in Hpre. apply Hpre, Hin. }
  assert (Hrun' : Forall (λ ref : rule_ref, one_name ref.2) (refs_from (length pre) run)).
  { apply Forall_forall. intros ref Hin. apply refs_from_elem in Hin.
    rewrite Forall_forall in Hrun. apply Hrun, Hin. }
  destruct (foldl_nameless_packer _ k0 Hpre' eq_refl eq_refl) as (A1 & A2 & A3).
  destruct (foldl_one_name_packer _ (foldl pack_step k0 (refs_from 0 pre)) Hrun')
    as (B1 & B2 & B3).
  assert (Hk : pack_rules (rules T)
               = foldl pack_step (foldl pack_step k0 (refs_from 0 pre))
                   (refs_from (length pre) run)).
  { unfold pack_rules. fold k0. rewrite Hrefs, foldl_app. reflexivity. }
  rewrite A2 in B1. rewrite A3 in B2. simpl in B1, B2.
  assert (Hgoal : run_packs (names T) (rulepacks T) (start (with_counters T c) pkg)
                  = run_rules (imap (λ i r, (i, r)) (rules T)) (start (with_counters T c) pkg)).
  { rewrite Hrefs, run_rules_app, Hpacks, Hk. unfold flush. rewrite B1, B2.
    case_bool_decide as Hne.
    - rewrite run_singleton_packs.
      destruct (run_rules (refs_from 0 pre) _) as [st' [| |e]]; [|reflexivity..].
      cbn [run_packs]. destruct (call (names T) name_in_names (transformed_name st')) eqn:Hc;
        cbn [negb].
      + destruct (run_rules (refs_from (length pre) run) st') as [st'' [| |e]]; reflexivity.
      + symmetry. apply run_rules_no_match.
        apply Forall_forall. intros ref Hin. unfold no_match.
        destruct (MatchRule ref.2 _ _ _ _) eqn:Hm; [|reflexivity]. exfalso.
        simpl in Hc. apply bool_decide_eq_false in Hc. apply Hc.
        rewrite Hnames, Hk.
        apply foldl_pack_step_named_names.
        * eapply Forall_impl; [exact Hrun'|]. intros r [nm Hr]. unfold named.
          rewrite Hr. eauto.
        * right. rewrite Forall_forall in Hrun'. destruct (Hrun' _ Hin) as [nm Hnm].
          exists ref, [nm]. split; [exact Hin|]. split; [exact Hnm|].
          eapply MatchRule_name; eassumption.
    - rewrite <- (app_nil_r (singleton_packs _)), run_singleton_packs.
      assert (Hnil : refs_from (length pre) run = []).
      { destruct (decide (refs_from (length pre) run = [])) as [He|He]; [exact He|].
        exfalso. apply (B3 He). exact Hne. }
      rewrite Hnil.
      destruct (run_rules (refs_from 0 pre) _) as [st' [| |e]]; reflexivity. }
  unfold Process, Process_unpacked. simpl in *. rewrite Hgoal. reflexivity.
Qed.

(** *** Rules that are never counted *)

Lemma occurrences_nameless (T : PackageTransformer) (j : nat) (rule : Rule) :
  rules T !! j = Some rule → is_Some (r_name rule) →
  occurrences j (filter nameless (all_rules T)) = 0%nat.
Proof.
  intros Hj [l Hl]. unfold occurrences.
  destruct (filter (λ ref : rule_ref, ref.1 = j) (filter nameless (all_rules T)))
    as [|ref rest] eqn:He; [reflexivity|]. exfalso.
  assert (Hin : ref ∈ filter (λ ref : rule_ref, ref.1 = j) (filter nameless (all_rules T)))
    by (rewrite He; apply list_elem_of_here).
  apply list_elem_of_filter in Hin as [Hid Hin].
  apply list_elem_of_filter in Hin as [Hnl Hin].
  apply elem_of_lookup_imap in Hin as (i & r & -> & Hi). simpl in *. subst i.
  unfold nameless in Hnl. simpl in Hnl. congruence.
Qed.

Lemma process_all_stays_zero (document : list RawRule) T (pkgs : list Package)
    (j : nat) (c : list nat) :
  __init__ document = Ok T →
  names T = ∅ →
  occurrences j (filter nameless (all_rules T)) = 0%nat →
  c !! j = Some 0%nat →
  matches (process_all (with_counters T c) pkgs) !! j = Some 0%nat.
Proof.
  intros Hinit Hempty Hocc. revert c. induction pkgs as [|pkg pkgs IH]; intros c Hc.
  - exact Hc.
  - simpl. rewrite (Process_empty_cell _ _ c pkg Hinit Hempty).
    unfold Process_over.
    destruct (run_rules_grows (filter nameless (all_rules T)) (start (with_counters T c) pkg))
      as [_ Hg].
    destruct (Hg j 0%nat Hc) as (m1 & Hm1 & _).
    pose proof (run_rules_bound (filter nameless (all_rules T))
                  (start (with_counters T c) pkg) j 0%nat m1 Hc Hm1) as Hb.
    rewrite Hocc in Hb.
    assert (m1 = 0%nat) as -> by lia.
    destruct (run_rules (filter nameless (all_rules T)) (start (with_counters T c) pkg))
      as [st [| |e]]; simpl in *; apply (IH (counters st) Hm1).
Qed.

(** X23.  After a document that ends with a rule without [name], a rule
    with a [name] is never counted: whatever packages are processed, its
    counter stays 0, so [GetUnmatchedRules] goes on reporting it. *)
Theorem named_rules_stay_unmatched (document : list RawRule) T (pkgs : list Package)
    (r rule : Rule) (j : nat) :
  __init__ document = Ok T →
  last (rules T) = Some r →
  r_name r = None →
  rules T !! j = Some rule →
  is_Some (r_name rule) →
  matches (process_all T pkgs) !! j = Some 0%nat.
Proof.
  intros Hinit Hlast Hr Hj Hnamed.
  rewrite <- (with_counters_same T) at 1.
  apply (process_all_stays_zero document); [exact Hinit| | |].
  - apply last_Some in Hlast as [pre' Hpre].
    pose proof Hinit as Hf. apply init_fields in Hf as (_ & _ & _ & ->).
    apply names_after_prefix. right. eauto.
  - eapply occurrences_nameless; eassumption.
  - apply init_fields in Hinit as (_ & -> & _ & _).
    apply lookup_replicate_2. eapply lookup_lt_Some, Hj.
Qed.

End MoreProperties.

(** * Instances of the further properties, with the reference engine *)

Section MoreRuns.

Import RefRe Spec More.
Local Open Scope list_scope.

Lemma GetUnmatchedRules_fresh_witness :
  __init__ Doc.two_conditions = Ok (Doc.build Doc.two_conditions)
  ∧ GetUnmatchedRules (Doc.build Doc.two_conditions) = ["{name=x;}"; "{family=freebsd;}"].
Proof.
  assert (H1 : __init__ Doc.two_conditions = Ok (Doc.build Doc.two_conditions))
    by reflexivity.
  split; [exact H1|].
  rewrite (GetUnmatchedRules_fresh Doc.two_conditions (Doc.build Doc.two_conditions) H1).
  vm_compute. reflexivity.
Defined.

Lemma Process_returns_without_setname_witness :
  __init__ no_names = Ok (Doc.build no_names)
  ∧ Forall (λ rule, r_setname rule = None) (rules (Doc.build no_names))
  ∧ (Process (with_counters (Doc.build no_names) [0; 0]%nat) Doc.pkg_a).2 = Ok tt.
Proof.
  assert (H1 : __init__ no_names = Ok (Doc.build no_names)) by reflexivity.
  assert (H2 : Forall (λ rule, r_setname rule = None) (rules (Doc.build no_names)))
    by (repeat constructor).
  split; [exact H1|]. split; [exact H2|].
  exact (Process_returns_without_setname no_names (Doc.build no_names) [0; 0]%nat Doc.pkg_a
           H1 (λ rule Hin, proj1 (Forall_forall _ _) H2 rule Hin)).
Defined.

Lemma Process_keeps_name_without_renaming_witness :
  __init__ flags_only = Ok (Doc.build flags_only)
  ∧ Forall (λ rule, r_setname rule = None ∧ r_replaceinname rule = None
                    ∧ r_tolowername rule = false) (rules (Doc.build flags_only))
  ∧ pkg_effname (Process (with_counters (Doc.build flags_only) [0; 0]%nat) Doc.pkg_a).1.2
    = Some "a".
Proof.
  assert (H1 : __init__ flags_only = Ok (Doc.build flags_only)) by reflexivity.
  assert (H2 : Forall (λ rule, r_setname rule = None ∧ r_replaceinname rule = None
                               ∧ r_tolowername rule = false) (rules (Doc.build flags_only)))
    by (repeat constructor).
  split; [exact H1|]. split; [exact H2|].
  exact (proj2 (Process_keeps_name_without_renaming flags_only (Doc.build flags_only)
                  [0; 0]%nat Doc.pkg_a H1
                  (λ rule Hin, proj1 (Forall_forall _ _) H2 rule Hin))).
Defined.

Lemma ignore_needs_an_ignore_rule_witness :
  __init__ flags_only = Ok (Doc.build flags_only)
  ∧ Forall (λ rule, r_ignore rule = false) (rules (Doc.build flags_only))
  ∧ pkg_ignore (Process (with_counters (Doc.build flags_only) [0; 0]%nat) Doc.pkg_a).1.2
    = false.
Proof.
  assert (H1 : __init__ flags_only = Ok (Doc.build flags_only)) by reflexivity.
  assert (H2 : Forall (λ rule, r_ignore rule = false) (rules (Doc.build flags_only)))
    by (repeat constructor).
  split; [exact H1|]. split; [exact H2|].
  exact (proj1 (ignore_needs_an_ignore_rule flags_only (Doc.build flags_only)
                  [0; 0]%nat Doc.pkg_a H1)
           (λ rule Hin, proj1 (Forall_forall _ _) H2 rule Hin) eq_refl).
Defined.

Lemma constant_setname_witness :
  r_setname (Doc.plain (Doc.with_setname "b" (Doc.with_name (YScalar "a") Doc.empty)))
    = Some "b"
  ∧ no_dollar "b" = true
  ∧ Template.has_backslash "a" = false
  ∧ ApplyRule (Doc.plain (Doc.with_setname "b" (Doc.with_name (YScalar "a") Doc.empty)))
      "a" "1.0" = Ok (0, "b").
Proof.
  split; [reflexivity|]. split; [reflexivity|]. split; [reflexivity|].
  exact (constant_setname
           (Doc.plain (Doc.with_setname "b" (Doc.with_name (YScalar "a") Doc.empty)))
           "b" "a" "1.0" eq_refl eq_refl (or_intror eq_refl)).
Defined.

Lemma packs_have_shape_witness :
  __init__ mixed = Ok (Doc.build mixed)
  ∧ Forall pack_shape (rulepacks (Doc.build mixed)).
Proof.
  assert (H1 : __init__ mixed = Ok (Doc.build mixed)) by reflexivity.
  split; [exact H1|]. exact (packs_have_shape mixed (Doc.build mixed) H1).
Defined.

Lemma packs_hold_rules_once_per_name_witness :
  __init__ mixed = Ok (Doc.build mixed)
  ∧ fst <$> packed_rules (Doc.build mixed) = [0; 0; 1; 2; 3; 3]%nat.
Proof.
  assert (H1 : __init__ mixed = Ok (Doc.build mixed)) by reflexivity.
  split; [exact H1|].
  rewrite (packs_hold_rules_once_per_name mixed (Doc.build mixed) H1).
  vm_compute. reflexivity.
Defined.

Lemma names_cell_is_the_last_run_witness :
  __init__ mixed = Ok (Doc.build mixed)
  ∧ rules (Doc.build mixed)
    = [Doc.plain (Doc.with_name (YList ["a"; "b"]) Doc.empty);
       Doc.plain (Doc.with_ignore Doc.empty)]
      ++ [Doc.plain (Doc.with_tolowername (Doc.with_name (YScalar "c") Doc.empty));
          Doc.plain (Doc.with_name (YList ["d"; "e"]) Doc.empty)]
  ∧ ("a" ∈ names (Doc.build mixed)
     ↔ names_of [Doc.plain (Doc.with_tolowername (Doc.with_name (YScalar "c") Doc.empty));
                 Doc.plain (Doc.with_name (YList ["d"; "e"]) Doc.empty)] "a").
Proof.
  assert (H1 : __init__ mixed = Ok (Doc.build mixed)) by reflexivity.
  assert (H2 : rules (Doc.build mixed)
    = [Doc.plain (Doc.with_name (YList ["a"; "b"]) Doc.empty);
       Doc.plain (Doc.with_ignore Doc.empty)]
      ++ [Doc.plain (Doc.with_tolowername (Doc.with_name (YScalar "c") Doc.empty));
          Doc.plain (Doc.with_name (YList ["d"; "e"]) Doc.empty)])
    by reflexivity.
  split; [exact H1|]. split; [exact H2|].
  refine (names_cell_is_the_last_run mixed (Doc.build mixed) _ _ "a" H1 H2 _ _).
  - right. exists [Doc.plain (Doc.with_name (YList ["a"; "b"]) Doc.empty)],
      (Doc.plain (Doc.with_ignore Doc.empty)). split; reflexivity.
  - repeat constructor; simpl; eauto.
Defined.

Lemma named_rules_dead_after_nameless_last_witness :
  __init__ Doc.rename_then_ignore = Ok (Doc.build Doc.rename_then_ignore)
  ∧ last (rules (Doc.build Doc.rename_then_ignore))
    = Some (Doc.plain (Doc.with_ignore Doc.empty))
  ∧ r_name (Doc.plain (Doc.with_ignore Doc.empty)) = None
  ∧ Process (with_counters (Doc.build Doc.rename_then_ignore) [0; 0]%nat) Doc.pkg_a
    = Process_over [(1%nat, Doc.plain (Doc.with_ignore Doc.empty))]
        (with_counters (Doc.build Doc.rename_then_ignore) [0; 0]%nat) Doc.pkg_a.
Proof.
  assert (H1 : __init__ Doc.rename_then_ignore = Ok (Doc.build Doc.rename_then_ignore))
    by reflexivity.
  assert (H2 : last (rules (Doc.build Doc.rename_then_ignore))
               = Some (Doc.plain (Doc.with_ignore Doc.empty)))
    by reflexivity.
  split; [exact H1|]. split; [exact H2|]. split; [reflexivity|].
  exact (named_rules_dead_after_nameless_last Doc.rename_then_ignore
           (Doc.build Doc.rename_then_ignore) [0; 0]%nat Doc.pkg_a
           (Doc.plain (Doc.with_ignore Doc.empty)) H1 H2 eq_refl).
Defined.

Lemma packs_are_neutral_without_names_witness :
  __init__ no_names = Ok (Doc.build no_names)
  ∧ Forall (λ rule, r_name rule = None) (rules (Doc.build no_names))
  ∧ Process (with_counters (Doc.build no_names) [0; 0]%nat) Doc.pkg_a
    = Process_unpacked (with_counters (Doc.build no_names) [0; 0]%nat) Doc.pkg_a.
Proof.
  assert (H1 : __init__ no_names = Ok (Doc.build no_names)) by reflexivity.
  assert (H2 : Forall (λ rule, r_name rule = None) (rules (Doc.build no_names)))
    by (repeat constructor).
  split; [exact H1|]. split; [exact H2|].
  exact (packs_are_neutral_without_names no_names (Doc.build no_names) [0; 0]%nat Doc.pkg_a
           H1 (λ rule Hin, proj1 (Forall_forall _ _) H2 rule Hin)).
Defined.

Lemma counter_moves_at_most_once_per_name_witness :
  __init__ mixed = Ok (Doc.build mixed)
  ∧ rules (Doc.build mixed) !! 3%nat
    = Some (Doc.plain (Doc.with_name (YList ["d"; "e"]) Doc.empty))
  ∧ matches (Process (with_counters (Doc.build mixed) [0; 0; 0; 0]%nat)
               (Doc.pkg "d" "1.0" "x" "f")).1.1 !! 3%nat = Some 2%nat
  ∧ (0 ≤ 2 ≤ 0 + copies (3%nat, Doc.plain (Doc.with_name (YList ["d"; "e"]) Doc.empty)))%nat.
Proof.
  assert (H1 : __init__ mixed = Ok (Doc.build mixed)) by reflexivity.
  assert (H2 : rules (Doc.build mixed) !! 3%nat
               = Some (Doc.plain (Doc.with_name (YList ["d"; "e"]) Doc.empty)))
    by reflexivity.
  assert (H3 : matches (Process (with_counters (Doc.build mixed) [0; 0; 0; 0]%nat)
                          (Doc.pkg "d" "1.0" "x" "f")).1.1 !! 3%nat = Some 2%nat)
    by (vm_compute; reflexivity).
  split; [exact H1|]. split; [exact H2|]. split; [exact H3|].
  exact (counter_moves_at_most_once_per_name mixed (Doc.build mixed) [0; 0; 0; 0]%nat
           (Doc.pkg "d" "1.0" "x" "f") 3%nat _ 0%nat 2%nat H1 H2 eq_refl H3).
Defined.

Lemma last_pack_skips_no_match_witness :
  __init__ mixed = Ok (Doc.build mixed)
  ∧ MatchRule (Doc.plain (Doc.with_tolowername (Doc.with_name (YScalar "c") Doc.empty)))
      "c" "1.0" "x" "f" = true
  ∧ "c" ∈ names (Doc.build mixed).
Proof.
  assert (H1 : __init__ mixed = Ok (Doc.build mixed)) by reflexivity.
  assert (H2 : rules (Doc.build mixed)
    = [Doc.plain (Doc.with_name (YList ["a"; "b"]) Doc.empty);
       Doc.plain (Doc.with_ignore Doc.empty)]
      ++ [Doc.plain (Doc.with_tolowername (Doc.with_name (YScalar "c") Doc.empty));
          Doc.plain (Doc.with_name (YList ["d"; "e"]) Doc.empty)])
    by reflexivity.
  split; [exact H1|]. split; [reflexivity|].
  refine (last_pack_skips_no_match mixed (Doc.build mixed) _ _
            (Doc.plain (Doc.with_tolowername (Doc.with_name (YScalar "c") Doc.empty)))
            "c" "1.0" "x" "f" H1 H2 _ _ _ eq_refl).
  - right. exists [Doc.plain (Doc.with_name (YList ["a"; "b"]) Doc.empty)],
      (Doc.plain (Doc.with_ignore Doc.empty)). split; reflexivity.
  - repeat constructor; simpl; eauto.
  - apply list_elem_of_here.
Defined.

Lemma namepat_rules_use_groups_witness :
  MatchRule (compiled Doc.strip_lib) "libfoo" "1.0" "x" "f" = true
  ∧ r_setname (compiled Doc.strip_lib) = Some "$1"
  ∧ ∃ p m, r_namepat (compiled Doc.strip_lib) = Some p
           ∧ re_match p "libfoo" = Some m
           ∧ ApplyRule (compiled Doc.strip_lib) "libfoo" "1.0"
             = (let* n1 := Template.dollarN_sub (λ ds, group m (Template.int_of ds)) O "$1" in
                Ok (flags_of (compiled Doc.strip_lib),
                    lower_step (compiled Doc.strip_lib)
                      (replace_step (compiled Doc.strip_lib) n1))).
Proof.
  assert (H1 : MatchRule (compiled Doc.strip_lib) "libfoo" "1.0" "x" "f" = true)
    by (vm_compute; reflexivity).
  split; [exact H1|]. split; [reflexivity|].
  eexists.
  assert (H2 : r_namepat (compiled Doc.strip_lib) = Some ?[p]) by (vm_compute; reflexivity).
  destruct (namepat_rules_use_groups (compiled Doc.strip_lib) _ "$1" "libfoo" "1.0" "x" "f"
              H1 H2 eq_refl) as (m & Hm & Ha).
  exists m. split; [exact H2|]. split; [exact Hm|exact Ha].
Defined.

Lemma packs_are_neutral_for_sorted_documents_witness :
  __init__ sorted = Ok (Doc.build sorted)
  ∧ rules (Doc.build sorted)
    = [Doc.plain (Doc.with_ignore Doc.empty)]
      ++ [Doc.plain (Doc.with_setname "b" (Doc.with_name (YScalar "a") Doc.empty));
          Doc.plain (Doc.with_tolowername (Doc.with_name (YScalar "b") Doc.empty))]
  ∧ Process (with_counters (Doc.build sorted) [0; 0; 0]%nat) Doc.pkg_a
    = Process_unpacked (with_counters (Doc.build sorted) [0; 0; 0]%nat) Doc.pkg_a.
Proof.
  assert (H1 : __init__ sorted = Ok (Doc.build sorted)) by reflexivity.
  assert (H2 : rules (Doc.build sorted)
    = [Doc.plain (Doc.with_ignore Doc.empty)]
      ++ [Doc.plain (Doc.with_setname "b" (Doc.with_name (YScalar "a") Doc.empty));
          Doc.plain (Doc.with_tolowername (Doc.with_name (YScalar "b") Doc.empty))])
    by reflexivity.
  split; [exact H1|]. split; [exact H2|].
  refine (packs_are_neutral_for_sorted_documents sorted (Doc.build sorted) _ _
            [0; 0; 0]%nat Doc.pkg_a H1 H2 _ _).
  - repeat constructor.
  - repeat constructor; eexists; reflexivity.
Defined.

Lemma named_rules_stay_unmatched_witness :
  __init__ Doc.rename_then_ignore = Ok (Doc.build Doc.rename_then_ignore)
  ∧ last (rules (Doc.build Doc.rename_then_ignore))
    = Some (Doc.plain (Doc.with_ignore Doc.empty))
  ∧ rules (Doc.build Doc.rename_then_ignore) !! 0%nat
    = Some (Doc.plain (Doc.with_setname "b" (Doc.with_name (YScalar "a") Doc.empty)))
  ∧ matches (process_all (Doc.build Doc.rename_then_ignore)
               [Doc.pkg_a; Doc.pkg "b" "2" "x" "f"]) !! 0%nat = Some 0%nat.
Proof.
  assert (H1 : __init__ Doc.rename_then_ignore = Ok (Doc.build Doc.rename_then_ignore))
    by reflexivity.
  assert (H2 : last (rules (Doc.build Doc.rename_then_ignore))
               = Some (Doc.plain (Doc.with_ignore Doc.empty))) by reflexivity.
  assert (H3 : rules (Doc.build Doc.rename_then_ignore) !! 0%nat
    = Some (Doc.plain (Doc.with_setname "b" (Doc.with_name (YScalar "a") Doc.empty))))
    by reflexivity.
  split; [exact H1|]. split; [exact H2|]. split; [exact H3|].
  exact (named_rules_stay_unmatched Doc.rename_then_ignore
           (Doc.build Doc.rename_then_ignore) [Doc.pkg_a; Doc.pkg "b" "2" "x" "f"]
           _ _ 0%nat H1 H2 eq_refl H3 (ex_intro _ ["a"] eq_refl)).
Defined.

(** The sorted document at work: renamed by the second rule, entered into
    the same pack again under its new name. *)
Example sorted_run :
  Doc.observe (Doc.process_with sorted Doc.pkg_a)
  = Ok ((Some "b", true, false), [1; 1; 1]%nat, Ok tt).
Proof. vm_compute. reflexivity. Qed.

End MoreRuns.
